(** * PrivacyProfessionalCertificate: a shallow embedding of the contract

    The development follows [contracts/PrivacyProfessionalCertificate.sol].
    Solidity [uint256] (and the narrower unsigned types) are binary naturals
    [N]; arithmetic is the checked arithmetic of Solidity 0.8, which aborts the
    transaction with a panic instead of wrapping.  A [mapping] is a finite map
    ([gmap]) read through [mread], which yields the zero value of the value
    type at a key that was never written.  Contract functions are computations
    in a small state-and-failure monad [Tx]; a failed computation leaves no
    trace, which [transact] makes explicit. *)

From Stdlib Require Import NArith Lia.
From stdpp Require Import gmap strings list fin_maps.

Local Open Scope N_scope.

(** ** Elementary types *)

(** Addresses and 32-byte words are numbers; the names are kept as
    abbreviations so that map lemmas see one key type.  Encrypted values are
    opaque handles handed out by the FHE library. *)
Abbreviation address := N (only parsing).
Abbreviation bytes32 := N (only parsing).
Abbreviation euint64 := N (only parsing).
Abbreviation euint8 := N (only parsing).

Definition MAX_UINT256 : N := 2 ^ 256 - 1.
(** [1 days] and [365 days], in seconds. *)
Definition ONE_DAY : N := 86400.
Definition ONE_YEAR : N := 365 * 86400.

(** The zero value every Solidity type has; unwritten storage reads as it. *)
Class SolZero (V : Type) : Type := sol_zero : V.
Global Hint Mode SolZero ! : typeclass_instances.

Global Instance N_SolZero : SolZero N := 0.
Global Instance bool_SolZero : SolZero bool := false.
Global Instance string_SolZero : SolZero string := EmptyString.
Global Instance list_SolZero {A : Type} : SolZero (list A) := [].

(** [m[k]] for a storage mapping [m]. *)
Definition mread `{Countable K} {V : Type} `{SolZero V} (m : gmap K V) (k : K) : V :=
  default sol_zero (m !! k).

Module Certificate.
Record t : Type := mk {
    holder : address;
    profession : string;
    encryptedScore : euint64;
    encryptedLevel : euint8;
    isValid : bool;
    issueDate : N;
    expiryDate : N;
    issuer : string;
    hashedCredentials : bytes32
  }.

Definition set_isValid (b : bool) (c : t) : t :=
    mk (holder c) (profession c) (encryptedScore c) (encryptedLevel c) b
       (issueDate c) (expiryDate c) (issuer c) (hashedCredentials c).

Definition set_expiryDate (d : N) (c : t) : t :=
    mk (holder c) (profession c) (encryptedScore c) (encryptedLevel c) (isValid c)
       (issueDate c) d (issuer c) (hashedCredentials c).
End Certificate.

Module CertificationRequest.
Record t : Type := mk {
    applicant : address;
    profession : string;
    encryptedScore : euint64;
    encryptedLevel : euint8;
    isProcessed : bool;
    isApproved : bool;
    requestTime : N;
    evidence : string
  }.

Definition set_isProcessed (b : bool) (r : t) : t :=
    mk (applicant r) (profession r) (encryptedScore r) (encryptedLevel r) b
       (isApproved r) (requestTime r) (evidence r).

Definition set_isApproved (b : bool) (r : t) : t :=
    mk (applicant r) (profession r) (encryptedScore r) (encryptedLevel r)
       (isProcessed r) b (requestTime r) (evidence r).
End CertificationRequest.

Global Instance Certificate_SolZero : SolZero Certificate.t :=
  Certificate.mk 0 EmptyString 0 0 false 0 0 EmptyString 0.
Global Instance CertificationRequest_SolZero : SolZero CertificationRequest.t :=
  CertificationRequest.mk 0 EmptyString 0 0 false false 0 EmptyString.

Inductive Event : Type :=
| CertificateIssued (certificateId : N) (holder : address) (profession : string)
| CertificationRequested (requestId : N) (applicant : address) (profession : string)
| CertificationApproved (requestId certificateId : N)
| CertificationRejected (requestId : N) (reason : string)
| CertificateRevoked (certificateId : N) (reason : string)
| IssuerAuthorized (issuer : address) (organization : string)
| IssuerRevoked (issuer : address).

(** ** Contract state

    The nine storage variables of the contract, in declaration order, then
    the two things a transaction changes outside the contract's storage: the
    access-control list of the FHE library (pairs of a handle and an account
    allowed on it) and the log of emitted events, oldest first. *)
Record State : Type := mkState {
  owner : address;
  nextCertificateId : N;
  certificates : gmap N Certificate.t;
  holderCertificates : gmap address (list N);
  certificationRequests : gmap N CertificationRequest.t;
  authorizedIssuers : gmap address bool;
  minimumScoreRequirement : gmap string N;
  minimumLevelRequirement : gmap string N;
  nextRequestId : N;
  acl : gset (bytes32 * address);
  events : list Event
}.

(** Storage before the constructor runs. *)
Definition emptyState : State :=
  mkState 0 0 ∅ ∅ ∅ ∅ ∅ ∅ 0 ∅ [].

Definition set_owner (v : address) (s : State) : State :=
  mkState v (nextCertificateId s) (certificates s) (holderCertificates s)
    (certificationRequests s) (authorizedIssuers s) (minimumScoreRequirement s)
    (minimumLevelRequirement s) (nextRequestId s) (acl s) (events s).
Definition set_nextCertificateId (v : N) (s : State) : State :=
  mkState (owner s) v (certificates s) (holderCertificates s)
    (certificationRequests s) (authorizedIssuers s) (minimumScoreRequirement s)
    (minimumLevelRequirement s) (nextRequestId s) (acl s) (events s).
Definition set_certificates (v : gmap N Certificate.t) (s : State) : State :=
  mkState (owner s) (nextCertificateId s) v (holderCertificates s)
    (certificationRequests s) (authorizedIssuers s) (minimumScoreRequirement s)
    (minimumLevelRequirement s) (nextRequestId s) (acl s) (events s).
Definition set_holderCertificates (v : gmap address (list N)) (s : State) : State :=
  mkState (owner s) (nextCertificateId s) (certificates s) v
    (certificationRequests s) (authorizedIssuers s) (minimumScoreRequirement s)
    (minimumLevelRequirement s) (nextRequestId s) (acl s) (events s).
Definition set_certificationRequests (v : gmap N CertificationRequest.t) (s : State) : State :=
  mkState (owner s) (nextCertificateId s) (certificates s) (holderCertificates s)
    v (authorizedIssuers s) (minimumScoreRequirement s)
    (minimumLevelRequirement s) (nextRequestId s) (acl s) (events s).
Definition set_authorizedIssuers (v : gmap address bool) (s : State) : State :=
  mkState (owner s) (nextCertificateId s) (certificates s) (holderCertificates s)
    (certificationRequests s) v (minimumScoreRequirement s)
    (minimumLevelRequirement s) (nextRequestId s) (acl s) (events s).
Definition set_minimumScoreRequirement (v : gmap string N) (s : State) : State :=
  mkState (owner s) (nextCertificateId s) (certificates s) (holderCertificates s)
    (certificationRequests s) (authorizedIssuers s) v
    (minimumLevelRequirement s) (nextRequestId s) (acl s) (events s).
Definition set_minimumLevelRequirement (v : gmap string N) (s : State) : State :=
  mkState (owner s) (nextCertificateId s) (certificates s) (holderCertificates s)
    (certificationRequests s) (authorizedIssuers s) (minimumScoreRequirement s)
    v (nextRequestId s) (acl s) (events s).
Definition set_nextRequestId (v : N) (s : State) : State :=
  mkState (owner s) (nextCertificateId s) (certificates s) (holderCertificates s)
    (certificationRequests s) (authorizedIssuers s) (minimumScoreRequirement s)
    (minimumLevelRequirement s) v (acl s) (events s).
Definition set_acl (v : gset (bytes32 * address)) (s : State) : State :=
  mkState (owner s) (nextCertificateId s) (certificates s) (holderCertificates s)
    (certificationRequests s) (authorizedIssuers s) (minimumScoreRequirement s)
    (minimumLevelRequirement s) (nextRequestId s) v (events s).
Definition set_events (v : list Event) (s : State) : State :=
  mkState (owner s) (nextCertificateId s) (certificates s) (holderCertificates s)
    (certificationRequests s) (authorizedIssuers s) (minimumScoreRequirement s)
    (minimumLevelRequirement s) (nextRequestId s) (acl s) v.

(** ** The transaction monad *)

(** What a call sees of its transaction: [msg.sender] and [block.timestamp]. *)
Record Env : Type := mkEnv {
  sender : address;
  timestamp : N
}.

(** A [require] that fails reverts with its message; checked arithmetic that
    overflows panics with code 0x11. *)
Inductive Failure : Type :=
| Revert (reason : string)
| Panic (code : N).

Inductive Outcome (A : Type) : Type :=
| Done (a : A) (s : State)
| Fail (f : Failure).
Arguments Done {A} a s.
Arguments Fail {A} f.

Definition Tx (A : Type) : Type := Env → State → Outcome A.

Global Instance Tx_ret : MRet Tx := λ A a _ s, Done a s.
Global Instance Tx_bind : MBind Tx := λ A B f m e s,
  match m e s with
  | Done a s' => f a e s'
  | Fail x => Fail x
  end.

Definition get {A : Type} (proj : State → A) : Tx A := λ _ s, Done (proj s) s.
Definition modify (f : State → State) : Tx unit := λ _ s, Done tt (f s).
Definition msg_sender : Tx address := λ e s, Done (sender e) s.
Definition block_timestamp : Tx N := λ e s, Done (timestamp e) s.
Definition require (cond : bool) (reason : string) : Tx unit := λ _ s,
  if cond then Done tt s else Fail (Revert reason).
Definition emit (ev : Event) : Tx unit :=
  modify (λ s, set_events (events s ++ [ev]) s).

Definition checked_add (a b : N) : Tx N := λ _ s,
  if a + b <=? MAX_UINT256 then Done (a + b) s else Fail (Panic 17).
Definition checked_mul (a b : N) : Tx N := λ _ s,
  if a * b <=? MAX_UINT256 then Done (a * b) s else Fail (Panic 17).
Definition checked_sub (a b : N) : Tx N := λ _ s,
  if b <=? a then Done (a - b) s else Fail (Panic 17).

Local Open Scope string_scope.
Local Open Scope N_scope.

(** ** The contract

    The FHE library and [keccak256] live outside the repository.  The
    contract only stores and forwards what they return, so they are an
    interface the development is parametric in: the trivial encryptions
    [FHE.asEuint64] and [FHE.asEuint8], the digest of
    [abi.encodePacked(holder, profession, timestamp, id)], and the
    contract's own address, which [FHE.allowThis] grants access to.
    [FHE.allow] is modelled as adding a pair to the access-control list,
    and calls into the library are taken to return.

    A function is defined on its decoded arguments: numbers that the ABI
    decoder has already checked against the declared widths
    ([uint64 _score], [uint8 _level], [uint8 _minLevel], [uint256],
    [address]).  The decoding itself is part of [dispatch] below. *)
Class External : Type := mkExternal {
  this : address;
  FHE_asEuint64 : N → euint64;
  FHE_asEuint8 : N → euint8;
  keccak256_packed : address → string → N → N → bytes32
}.

Section Contract.

Context `{Ext : External}.

Definition FHE_allow (h : bytes32) (account : address) : Tx unit :=
  modify (λ s, set_acl (acl s ∪ {[ (h, account) ]}) s).

Definition FHE_allowThis (h : bytes32) : Tx unit := FHE_allow h this.

(** *** Storage writes through a mapping *)

Definition store_certificate (id : N) (c : Certificate.t) : Tx unit :=
  modify (λ s, set_certificates (<[id := c]> (certificates s)) s).

Definition update_certificate (id : N) (f : Certificate.t → Certificate.t) : Tx unit :=
  modify (λ s, set_certificates (<[id := f (mread (certificates s) id)]> (certificates s)) s).

Definition store_request (id : N) (r : CertificationRequest.t) : Tx unit :=
  modify (λ s, set_certificationRequests (<[id := r]> (certificationRequests s)) s).

Definition update_request (id : N) (f : CertificationRequest.t → CertificationRequest.t)
    : Tx unit :=
  modify (λ s, set_certificationRequests
                 (<[id := f (mread (certificationRequests s) id)]> (certificationRequests s)) s).

Definition push_holderCertificate (h : address) (id : N) : Tx unit :=
  modify (λ s, set_holderCertificates
                 (<[h := (mread (holderCertificates s) h ++ [id])%list]> (holderCertificates s)) s).

Definition store_authorizedIssuer (a : address) (b : bool) : Tx unit :=
  modify (λ s, set_authorizedIssuers (<[a := b]> (authorizedIssuers s)) s).

Definition store_minimumScoreRequirement (p : string) (v : N) : Tx unit :=
  modify (λ s, set_minimumScoreRequirement (<[p := v]> (minimumScoreRequirement s)) s).

Definition store_minimumLevelRequirement (p : string) (v : N) : Tx unit :=
  modify (λ s, set_minimumLevelRequirement (<[p := v]> (minimumLevelRequirement s)) s).

(** *** Modifiers *)

Definition onlyOwner : Tx unit :=
  caller ← msg_sender;
  o ← get owner;
  require (caller =? o) "Not authorized".

Definition onlyAuthorizedIssuer : Tx unit :=
  caller ← msg_sender;
  issuers ← get authorizedIssuers;
  o ← get owner;
  require (mread issuers caller || (caller =? o)) "Not authorized issuer".

Definition validCertificate (_certificateId : N) : Tx unit :=
  next ← get nextCertificateId;
  require ((0 <? _certificateId) && (_certificateId <=? next)) "Invalid certificate ID";;
  certs ← get certificates;
  require (Certificate.isValid (mread certs _certificateId)) "Certificate not valid";;
  now ← block_timestamp;
  require (now <? Certificate.expiryDate (mread certs _certificateId)) "Certificate expired".

(** *** Constructor and owner operations *)

Definition constructor : Tx unit :=
  caller ← msg_sender;
  modify (set_owner caller);;
  modify (set_nextCertificateId 1);;
  modify (set_nextRequestId 1);;
  store_minimumScoreRequirement "Software Engineer" 75;;
  store_minimumLevelRequirement "Software Engineer" 3;;
  store_minimumScoreRequirement "Data Scientist" 80;;
  store_minimumLevelRequirement "Data Scientist" 4;;
  store_minimumScoreRequirement "Cybersecurity Specialist" 85;;
  store_minimumLevelRequirement "Cybersecurity Specialist" 4;;
  store_minimumScoreRequirement "Project Manager" 70;;
  store_minimumLevelRequirement "Project Manager" 3.

Definition authorizeIssuer (_issuer : address) (_organization : string) : Tx unit :=
  onlyOwner;;
  store_authorizedIssuer _issuer true;;
  emit (IssuerAuthorized _issuer _organization).

Definition revokeIssuer (_issuer : address) : Tx unit :=
  onlyOwner;;
  store_authorizedIssuer _issuer false;;
  emit (IssuerRevoked _issuer).

Definition setProfessionRequirements (_profession : string) (_minScore _minLevel : N)
    : Tx unit :=
  onlyOwner;;
  store_minimumScoreRequirement _profession _minScore;;
  store_minimumLevelRequirement _profession _minLevel.

(** *** Requests *)

Definition requestCertification (_profession : string) (_score _level : N)
    (_evidence : string) : Tx unit :=
  require (_score <=? 100) "Score must be between 0-100";;
  require (_level <=? 10) "Level must be between 1-10";;
  require (0 <? String.length _profession)%nat "Profession required";;
  require (0 <? String.length _evidence)%nat "Evidence required";;
  let encryptedScore := FHE_asEuint64 _score in
  let encryptedLevel := FHE_asEuint8 _level in
  caller ← msg_sender;
  now ← block_timestamp;
  id ← get nextRequestId;
  store_request id
    (CertificationRequest.mk caller _profession encryptedScore encryptedLevel
       false false now _evidence);;
  FHE_allowThis encryptedScore;;
  FHE_allowThis encryptedLevel;;
  FHE_allow encryptedScore caller;;
  FHE_allow encryptedLevel caller;;
  emit (CertificationRequested id caller _profession);;
  id' ← checked_add id 1;
  modify (set_nextRequestId id').

Definition _issueCertificate (_holder : address) (_profession : string)
    (_encryptedScore : euint64) (_encryptedLevel : euint8) (_issuer : string) : Tx unit :=
  now ← block_timestamp;
  id ← get nextCertificateId;
  let credentialHash := keccak256_packed _holder _profession now id in
  expiry ← checked_add now ONE_YEAR;
  store_certificate id
    (Certificate.mk _holder _profession _encryptedScore _encryptedLevel
       true now expiry _issuer credentialHash);;
  push_holderCertificate _holder id;;
  FHE_allow _encryptedScore _holder;;
  FHE_allow _encryptedLevel _holder;;
  emit (CertificateIssued id _holder _profession);;
  id' ← checked_add id 1;
  modify (set_nextCertificateId id').

Definition processCertificationRequest (_requestId : N) (_issuerName : string) : Tx unit :=
  onlyAuthorizedIssuer;;
  next ← get nextRequestId;
  require ((0 <? _requestId) && (_requestId <? next)) "Invalid request ID";;
  reqs ← get certificationRequests;
  require (negb (CertificationRequest.isProcessed (mread reqs _requestId)))
    "Request already processed";;
  update_request _requestId (CertificationRequest.set_isProcessed true);;
  update_request _requestId (CertificationRequest.set_isApproved true);;
  request ← get (λ s, mread (certificationRequests s) _requestId);
  if CertificationRequest.isApproved request then
    _issueCertificate
      (CertificationRequest.applicant request)
      (CertificationRequest.profession request)
      (CertificationRequest.encryptedScore request)
      (CertificationRequest.encryptedLevel request)
      _issuerName;;
    n ← get nextCertificateId;
    issued ← checked_sub n 1;
    emit (CertificationApproved _requestId issued)
  else
    emit (CertificationRejected _requestId "Requirements not met").

(** *** Certificates *)

Definition revokeCertificate (_certificateId : N) (_reason : string) : Tx unit :=
  onlyAuthorizedIssuer;;
  validCertificate _certificateId;;
  update_certificate _certificateId (Certificate.set_isValid false);;
  emit (CertificateRevoked _certificateId _reason).

Definition extendCertificateValidity (_certificateId _additionalDays : N) : Tx unit :=
  onlyAuthorizedIssuer;;
  validCertificate _certificateId;;
  delta ← checked_mul _additionalDays ONE_DAY;
  certs ← get certificates;
  expiry ← checked_add (Certificate.expiryDate (mread certs _certificateId)) delta;
  update_certificate _certificateId (Certificate.set_expiryDate expiry).

Definition emergencyPause : Tx unit :=
  onlyOwner;;
  mret tt.

(** *** Views *)

(** The tuple [verifyCertificate] returns:
    (holder, profession, isValid, issueDate, expiryDate, issuer, credentialHash). *)
Definition CertificateView : Type :=
  address * string * bool * N * N * string * bytes32.

Definition verifyCertificate (_certificateId : N) : Tx CertificateView :=
  validCertificate _certificateId;;
  cert ← get (λ s, mread (certificates s) _certificateId);
  mret (Certificate.holder cert, Certificate.profession cert, Certificate.isValid cert,
        Certificate.issueDate cert, Certificate.expiryDate cert, Certificate.issuer cert,
        Certificate.hashedCredentials cert).

Definition getHolderCertificates (_holder : address) : Tx (list N) :=
  get (λ s, mread (holderCertificates s) _holder).

Definition getCertificateCount : Tx N :=
  n ← get nextCertificateId;
  checked_sub n 1.

Definition getRequestCount : Tx N :=
  n ← get nextRequestId;
  checked_sub n 1.

Definition getProfessionRequirements (_profession : string) : Tx (N * N) :=
  get (λ s, (mread (minimumScoreRequirement s) _profession,
             mread (minimumLevelRequirement s) _profession)).

Definition getEncryptedScore (_certificateId : N) : Tx euint64 :=
  validCertificate _certificateId;;
  caller ← msg_sender;
  certs ← get certificates;
  issuers ← get authorizedIssuers;
  o ← get owner;
  require ((caller =? Certificate.holder (mread certs _certificateId))
           || mread issuers caller || (caller =? o))
    "Not authorized to view score";;
  mret (Certificate.encryptedScore (mread certs _certificateId)).

Definition getEncryptedLevel (_certificateId : N) : Tx euint8 :=
  validCertificate _certificateId;;
  caller ← msg_sender;
  certs ← get certificates;
  issuers ← get authorizedIssuers;
  o ← get owner;
  require ((caller =? Certificate.holder (mread certs _certificateId))
           || mread issuers caller || (caller =? o))
    "Not authorized to view level";;
  mret (Certificate.encryptedLevel (mread certs _certificateId)).

(** ** Transactions and reachable states *)

(** The external functions of the contract, with their arguments.  The
    getters Solidity generates for the public state variables read one
    variable and change nothing; they are not listed. *)
Inductive Call : Type :=
| AuthorizeIssuer (_issuer : address) (_organization : string)
| RevokeIssuer (_issuer : address)
| SetProfessionRequirements (_profession : string) (_minScore _minLevel : N)
| RequestCertification (_profession : string) (_score _level : N) (_evidence : string)
| ProcessCertificationRequest (_requestId : N) (_issuerName : string)
| RevokeCertificate (_certificateId : N) (_reason : string)
| ExtendCertificateValidity (_certificateId _additionalDays : N)
| EmergencyPause
| VerifyCertificate (_certificateId : N)
| GetHolderCertificates (_holder : address)
| GetCertificateCount
| GetRequestCount
| GetProfessionRequirements (_profession : string)
| GetEncryptedScore (_certificateId : N)
| GetEncryptedLevel (_certificateId : N).

Definition discard {A : Type} (m : Tx A) : Tx unit := _ ← m; mret tt.

(** [fits bits v]: [v] is a value of the unsigned type of that width
    ([uint8], [uint64], [uint256]; an [address] has 160 bits). *)
Definition fits (bits v : N) : bool := v <? 2 ^ bits.

(** The ABI decoder runs before the modifiers and the body of an external
    function: when a word of the calldata does not fit the declared type of
    its parameter, the call reverts, with no reason string. *)
Definition abi_decode {A : Type} (ok : bool) (m : Tx A) : Tx A := λ e s,
  if ok then m e s else Fail (Revert EmptyString).

(** A call from outside: the arguments are decoded at their declared
    types, then the function runs.  The function definitions above are the
    functions on decoded arguments. *)
Definition dispatch (c : Call) : Tx unit :=
  match c with
  | AuthorizeIssuer i o => abi_decode (fits 160 i) (authorizeIssuer i o)
  | RevokeIssuer i => abi_decode (fits 160 i) (revokeIssuer i)
  | SetProfessionRequirements p sc lv =>
      abi_decode (fits 256 sc && fits 8 lv) (setProfessionRequirements p sc lv)
  | RequestCertification p sc lv ev =>
      abi_decode (fits 64 sc && fits 8 lv) (requestCertification p sc lv ev)
  | ProcessCertificationRequest r n =>
      abi_decode (fits 256 r) (processCertificationRequest r n)
  | RevokeCertificate c r => abi_decode (fits 256 c) (revokeCertificate c r)
  | ExtendCertificateValidity c d =>
      abi_decode (fits 256 c && fits 256 d) (extendCertificateValidity c d)
  | EmergencyPause => emergencyPause
  | VerifyCertificate c => abi_decode (fits 256 c) (discard (verifyCertificate c))
  | GetHolderCertificates h =>
      abi_decode (fits 160 h) (discard (getHolderCertificates h))
  | GetCertificateCount => discard getCertificateCount
  | GetRequestCount => discard getRequestCount
  | GetProfessionRequirements p => discard (getProfessionRequirements p)
  | GetEncryptedScore c => abi_decode (fits 256 c) (discard (getEncryptedScore c))
  | GetEncryptedLevel c => abi_decode (fits 256 c) (discard (getEncryptedLevel c))
  end.

(** The state a computation leaves behind: its final state when it
    completes, the state it started from when it fails. *)
Definition commit {A : Type} (m : Tx A) (e : Env) (s : State) : State :=
  match m e s with
  | Done _ s' => s'
  | Fail _ => s
  end.

Definition succeeds {A : Type} (m : Tx A) (e : Env) (s : State) : bool :=
  match m e s with
  | Done _ _ => true
  | Fail _ => false
  end.

(** One transaction: a call either runs to completion or changes nothing. *)
Definition transact (e : Env) (c : Call) (s : State) : State :=
  commit (dispatch c) e s.

(** Deployment runs the constructor on empty storage. *)
Definition deploy (e : Env) : State := commit constructor e emptyState.

Inductive reachable : State → Prop :=
| reachable_deploy (e : Env) : reachable (deploy e)
| reachable_transact (s : State) (e : Env) (c : Call) :
    reachable s → reachable (transact e c s).

(** [steps s s']: [s'] is [s] after any number of transactions. *)
Inductive steps (s : State) : State → Prop :=
| steps_refl : steps s s
| steps_transact (s' : State) (e : Env) (c : Call) :
    steps s s' → steps s (transact e c s').


(** ** The guards and the states the operations leave

    The three guards of the modifiers as boolean functions, and for each
    state-changing function the state it leaves when it completes.  The
    [_run] lemmas below derive them from the monadic definitions. *)

Definition isOwner (e : Env) (s : State) : bool :=
  sender e =? owner s.

Definition isAuthorizedIssuer (e : Env) (s : State) : bool :=
  mread (authorizedIssuers s) (sender e) || (sender e =? owner s).

Definition inCertificateRange (id : N) (s : State) : bool :=
  (0 <? id) && (id <=? nextCertificateId s).

Definition isValidUnexpired (id : N) (e : Env) (s : State) : bool :=
  inCertificateRange id s
  && Certificate.isValid (mread (certificates s) id)
  && (timestamp e <? Certificate.expiryDate (mread (certificates s) id)).

Definition validInput (_profession : string) (_score _level : N) (_evidence : string)
    : bool :=
  (_score <=? 100) && (_level <=? 10)
  && (0 <? String.length _profession)%nat && (0 <? String.length _evidence)%nat.

Definition isPendingRequest (id : N) (s : State) : bool :=
  (0 <? id) && (id <? nextRequestId s)
  && negb (CertificationRequest.isProcessed (mread (certificationRequests s) id)).

Definition mayReadHandles (id : N) (e : Env) (s : State) : bool :=
  (sender e =? Certificate.holder (mread (certificates s) id))
  || mread (authorizedIssuers s) (sender e) || (sender e =? owner s).

Definition newRequest (p : string) (sc lv : N) (ev : string) (e : Env)
    : CertificationRequest.t :=
  CertificationRequest.mk (sender e) p (FHE_asEuint64 sc) (FHE_asEuint8 lv)
    false false (timestamp e) ev.

Definition request_post (p : string) (sc lv : N) (ev : string) (e : Env) (s : State)
    : State :=
  mkState (owner s) (nextCertificateId s) (certificates s) (holderCertificates s)
    (<[nextRequestId s := newRequest p sc lv ev e]> (certificationRequests s))
    (authorizedIssuers s) (minimumScoreRequirement s) (minimumLevelRequirement s)
    (nextRequestId s + 1)
    (acl s ∪ {[ (FHE_asEuint64 sc, this) ]} ∪ {[ (FHE_asEuint8 lv, this) ]}
       ∪ {[ (FHE_asEuint64 sc, sender e) ]} ∪ {[ (FHE_asEuint8 lv, sender e) ]})
    (events s ++ [CertificationRequested (nextRequestId s) (sender e) p])%list.

Definition newCertificate (h : address) (p : string) (sc lv : N) (iss : string)
    (e : Env) (s : State) : Certificate.t :=
  Certificate.mk h p sc lv true (timestamp e) (timestamp e + ONE_YEAR) iss
    (keccak256_packed h p (timestamp e) (nextCertificateId s)).

Definition issue_post (h : address) (p : string) (sc lv : N) (iss : string)
    (e : Env) (s : State) : State :=
  mkState (owner s) (nextCertificateId s + 1)
    (<[nextCertificateId s := newCertificate h p sc lv iss e s]> (certificates s))
    (<[h := (mread (holderCertificates s) h ++ [nextCertificateId s])%list]>
       (holderCertificates s))
    (certificationRequests s)
    (authorizedIssuers s) (minimumScoreRequirement s) (minimumLevelRequirement s)
    (nextRequestId s)
    (acl s ∪ {[ (sc, h) ]} ∪ {[ (lv, h) ]})
    (events s ++ [CertificateIssued (nextCertificateId s) h p])%list.

Definition approvedRequest (id : N) (s : State) : CertificationRequest.t :=
  CertificationRequest.set_isApproved true
    (CertificationRequest.set_isProcessed true (mread (certificationRequests s) id)).

Definition process_post (id : N) (iss : string) (e : Env) (s : State) : State :=
  let r := mread (certificationRequests s) id in
  let s1 := set_certificationRequests
              (<[id := approvedRequest id s]> (certificationRequests s)) s in
  let s2 := issue_post (CertificationRequest.applicant r) (CertificationRequest.profession r)
              (CertificationRequest.encryptedScore r) (CertificationRequest.encryptedLevel r)
              iss e s1 in
  set_events (events s2 ++ [CertificationApproved id (nextCertificateId s)])%list s2.

Definition revoke_post (id : N) (reason : string) (s : State) : State :=
  set_events (events s ++ [CertificateRevoked id reason])%list
    (set_certificates
       (<[id := Certificate.set_isValid false (mread (certificates s) id)]> (certificates s))
       s).

Definition extend_post (id days : N) (s : State) : State :=
  set_certificates
    (<[id := Certificate.set_expiryDate
               (Certificate.expiryDate (mread (certificates s) id) + days * ONE_DAY)
               (mread (certificates s) id)]> (certificates s))
    s.

(** ** Identifiers handed out, and the consistency of reachable states *)

Definition requestIdOf (ev : Event) : option N :=
  match ev with
  | CertificationRequested id _ _ => Some id
  | _ => None
  end.

Definition certificateIdOf (ev : Event) : option N :=
  match ev with
  | CertificateIssued id _ _ => Some id
  | _ => None
  end.

(** The request ids announced so far, in the order of the submissions. *)
Definition requestIdsAssigned (s : State) : list N := omap requestIdOf (events s).

(** The certificate ids announced so far, in the order of the issuances. *)
Definition certificateIdsAssigned (s : State) : list N := omap certificateIdOf (events s).

(** [l] is 1, 2, ..., and [next] is the first number after it. *)
Definition countsFromOne (l : list N) (next : N) : Prop :=
  (∀ (k : nat) (id : N), l !! k = Some id → id = N.of_nat k + 1)
  ∧ N.of_nat (length l) + 1 = next.

Definition unprocessed (kr : N * CertificationRequest.t) : Prop :=
  CertificationRequest.isProcessed kr.2 = false.

(** The number of stored requests that are still pending. *)
Definition pendingCount (s : State) : nat :=
  size (filter unprocessed (certificationRequests s)).

Record consistent (s : State) : Prop := mkConsistent {
  requests_dom : ∀ id,
    is_Some (certificationRequests s !! id) ↔ 1 ≤ id < nextRequestId s;
  certificates_dom : ∀ id,
    is_Some (certificates s !! id) ↔ 1 ≤ id < nextCertificateId s;
  requestId_bound : nextRequestId s ≤ MAX_UINT256;
  one_certificate_per_processed :
    nextCertificateId s + N.of_nat (pendingCount s) = nextRequestId s;
  requestIds_log : countsFromOne (requestIdsAssigned s) (nextRequestId s);
  certificateIds_log : countsFromOne (certificateIdsAssigned s) (nextCertificateId s)
}.

(** What one transaction can do to the state, whoever sends it and whatever
    it calls ([transact_effect]). *)
Inductive effect (e : Env) (s : State) : State → Prop :=
| effect_none : effect e s s
| effect_issuer (i : address) (b : bool) (ev : Event) :
    requestIdOf ev = None → certificateIdOf ev = None →
    effect e s (set_events (events s ++ [ev])%list
                  (set_authorizedIssuers (<[i := b]> (authorizedIssuers s)) s))
| effect_requirements (p : string) (sc lv : N) :
    sc < 2 ^ 256 → lv < 2 ^ 8 →
    effect e s (set_minimumLevelRequirement (<[p := lv]> (minimumLevelRequirement s))
                  (set_minimumScoreRequirement (<[p := sc]> (minimumScoreRequirement s)) s))
| effect_request (p : string) (sc lv : N) (ev : string) :
    nextRequestId s + 1 ≤ MAX_UINT256 →
    effect e s (request_post p sc lv ev e s)
| effect_process (id : N) (iss : string) :
    isPendingRequest id s = true →
    timestamp e + ONE_YEAR ≤ MAX_UINT256 →
    nextCertificateId s + 1 ≤ MAX_UINT256 →
    effect e s (process_post id iss e s)
| effect_revoke (id : N) (reason : string) :
    isValidUnexpired id e s = true →
    effect e s (revoke_post id reason s)
| effect_extend (id days : N) :
    isValidUnexpired id e s = true →
    effect e s (extend_post id days s).

End Contract.

(** ** What stays fixed in a stored record *)

(** Two certificates that differ at most in validity and expiry. *)
Definition sameIdentity (c c' : Certificate.t) : Prop :=
  Certificate.holder c' = Certificate.holder c
  ∧ Certificate.profession c' = Certificate.profession c
  ∧ Certificate.encryptedScore c' = Certificate.encryptedScore c
  ∧ Certificate.encryptedLevel c' = Certificate.encryptedLevel c
  ∧ Certificate.issueDate c' = Certificate.issueDate c
  ∧ Certificate.issuer c' = Certificate.issuer c
  ∧ Certificate.hashedCredentials c' = Certificate.hashedCredentials c.

(** Two requests that differ at most in the two flags. *)
Definition sameSubmission (r r' : CertificationRequest.t) : Prop :=
  CertificationRequest.applicant r' = CertificationRequest.applicant r
  ∧ CertificationRequest.profession r' = CertificationRequest.profession r
  ∧ CertificationRequest.encryptedScore r' = CertificationRequest.encryptedScore r
  ∧ CertificationRequest.encryptedLevel r' = CertificationRequest.encryptedLevel r
  ∧ CertificationRequest.requestTime r' = CertificationRequest.requestTime r
  ∧ CertificationRequest.evidence r' = CertificationRequest.evidence r.

(** A list of ids in strictly increasing order. *)
Definition increasing (l : list N) : Prop :=
  ∀ (i j : nat) a b, (i < j)%nat → l !! i = Some a → l !! j = Some b → a < b.

(** The requirements the constructor writes. *)
Definition initialRequirements (p : string) : N * N :=
  if decide (p = "Software Engineer") then (75, 3)
  else if decide (p = "Data Scientist") then (80, 4)
  else if decide (p = "Cybersecurity Specialist") then (85, 4)
  else if decide (p = "Project Manager") then (70, 3)
  else (0, 0).

Definition isRejection (ev : Event) : bool :=
  match ev with
  | CertificationRejected _ _ => true
  | _ => false
  end.

(** The holder lists and the certificates tell the same story. *)
Definition holdersAgree (s : State) : Prop :=
  (∀ h id, id ∈ mread (holderCertificates s) h ↔
           ∃ c, certificates s !! id = Some c ∧ Certificate.holder c = h)
  ∧ (∀ h, increasing (mread (holderCertificates s) h)).

(** A stored certificate as [_issueCertificate] builds it and
    [extendCertificateValidity] may later change it: it lasts at least a
    year from its issue date and its hash is the digest of its holder,
    profession, issue date and id. *)
Definition wellIssued `{Ext : External} (id : N) (c : Certificate.t) : Prop :=
  Certificate.issueDate c + ONE_YEAR ≤ Certificate.expiryDate c
  ∧ Certificate.hashedCredentials c
    = keccak256_packed (Certificate.holder c) (Certificate.profession c)
        (Certificate.issueDate c) id.

(** The request a certificate was issued for. *)
Definition issuedFor (r : CertificationRequest.t) (c : Certificate.t) : Prop :=
  CertificationRequest.isProcessed r = true
  ∧ CertificationRequest.isApproved r = true
  ∧ CertificationRequest.applicant r = Certificate.holder c
  ∧ CertificationRequest.profession r = Certificate.profession c
  ∧ CertificationRequest.encryptedScore r = Certificate.encryptedScore c
  ∧ CertificationRequest.encryptedLevel r = Certificate.encryptedLevel c.

(** Certificates and processed requests correspond. *)
Definition provenance (s : State) : Prop :=
  (∀ id c, certificates s !! id = Some c →
           ∃ rid r, certificationRequests s !! rid = Some r ∧ issuedFor r c)
  ∧ (∀ rid r, certificationRequests s !! rid = Some r →
              CertificationRequest.isProcessed r = true →
              ∃ id c, certificates s !! id = Some c ∧ issuedFor r c).


(** [stepsAfter t s s']: [s'] is [s] after any number of transactions in
    blocks whose timestamp is at least [t]. *)
Inductive stepsAfter `{Ext : External} (t : N) (s : State) : State → Prop :=
| stepsAfter_refl : stepsAfter t s s
| stepsAfter_transact (s' : State) (e : Env) (c : Call) :
    stepsAfter t s s' → t ≤ timestamp e → stepsAfter t s (transact e c s').

(** Every applicant, every holder and the contract itself were granted
    access to the handles stored for them. *)
Definition accessGranted `{Ext : External} (s : State) : Prop :=
  (∀ id c, certificates s !! id = Some c →
     (Certificate.encryptedScore c, Certificate.holder c) ∈ acl s
     ∧ (Certificate.encryptedLevel c, Certificate.holder c) ∈ acl s)
  ∧ (∀ id r, certificationRequests s !! id = Some r →
     (CertificationRequest.encryptedScore r, CertificationRequest.applicant r) ∈ acl s
     ∧ (CertificationRequest.encryptedLevel r, CertificationRequest.applicant r) ∈ acl s
     ∧ (CertificationRequest.encryptedScore r, this) ∈ acl s
     ∧ (CertificationRequest.encryptedLevel r, this) ∈ acl s).

(** The stored requirements are a [uint256] and a [uint8]. *)
Definition requirementsFit (s : State) : Prop :=
  map_Forall (λ _ v, v < 2 ^ 256) (minimumScoreRequirement s)
  ∧ map_Forall (λ _ v, v < 2 ^ 8) (minimumLevelRequirement s).

(** A computation that never changes the state it runs in. *)
Definition readonly {A : Type} (m : Tx A) : Prop :=
  ∀ e s a s', m e s = Done a s' → s' = s.

(** ** A concrete run

    One instance of the external interface and the states of a small
    scenario: deployment by account 7, a submission by account 8, its
    processing by the owner.  Account 5 is a stranger to the contract. *)
Definition sampleExternal : External :=
  mkExternal 99 (λ v, v + 1000) (λ v, v + 2000) (λ h _ t i, h + t + i).

Definition ownerAt (t : N) : Env := mkEnv 7 t.
Definition applicantAt (t : N) : Env := mkEnv 8 t.
Definition strangerAt (t : N) : Env := mkEnv 5 t.

Definition deployed : State := deploy (ownerAt 1000).

Definition submitted : State :=
  @transact sampleExternal (applicantAt 1001)
    (RequestCertification "Software Engineer" 80 4 "portfolio-link") deployed.

Definition certified : State :=
  @transact sampleExternal (ownerAt 1002)
    (ProcessCertificationRequest 1 "Acme Certifiers") submitted.

(** The certificate is then revoked by the owner. *)
Definition revoked : State :=
  @transact sampleExternal (ownerAt 1003) (RevokeCertificate 1 "withdrawn") certified.

(** ** Proof support *)

(** Unfold the monad and its primitives, leaving contract functions folded. *)
Ltac tx_prims :=
  cbv beta iota zeta delta
    [discard FHE_allow FHE_allowThis store_certificate update_certificate
     store_request update_request push_holderCertificate store_authorizedIssuer
     store_minimumScoreRequirement store_minimumLevelRequirement
     onlyOwner onlyAuthorizedIssuer validCertificate
     get modify msg_sender block_timestamp require emit
     checked_add checked_mul checked_sub mbind mret Tx_bind Tx_ret] in *.

Ltac st_simpl :=
  cbn [owner nextCertificateId certificates holderCertificates
       certificationRequests authorizedIssuers minimumScoreRequirement
       minimumLevelRequirement nextRequestId acl events
       set_owner set_nextCertificateId set_certificates set_holderCertificates
       set_certificationRequests set_authorizedIssuers
       set_minimumScoreRequirement set_minimumLevelRequirement
       set_nextRequestId set_acl set_events] in *.

(** Split on a guard whose outcome is still undecided. *)
Ltac tx_case :=
  match goal with
  | |- context [ if ?c then Done _ _ else Fail _ ] => destruct c eqn:?
  | H : context [ if ?c then Done _ _ else Fail _ ] |- _ => destruct c eqn:?
  end.

Ltac tx_run := tx_prims; st_simpl; repeat (tx_case; st_simpl).

(** Split on the first guard of a [_run] right-hand side. *)
Ltac guard_split :=
  match goal with
  | |- context [ if ?c then _ else _ ] => destruct c eqn:?
  end; cbv beta iota.

(** Unfold the closed forms of the final states. *)
Ltac post_simpl :=
  unfold request_post, process_post, issue_post, revoke_post, extend_post,
    approvedRequest, newRequest, newCertificate in *;
  cbv zeta in *; st_simpl.

Section Properties.

Context `{Ext : External}.

Lemma mread_insert_eq `{Countable K} {V : Type} `{SolZero V} (m : gmap K V) k v :
  mread (<[k := v]> m) k = v.
Proof. unfold mread. by rewrite lookup_insert_eq. Qed.

Lemma mread_insert_ne `{Countable K} {V : Type} `{SolZero V} (m : gmap K V) k k' v :
  k ≠ k' → mread (<[k := v]> m) k' = mread m k'.
Proof. intros. unfold mread. by rewrite lookup_insert_ne. Qed.

Lemma mread_None `{Countable K} {V : Type} `{SolZero V} (m : gmap K V) k :
  m !! k = None → mread m k = sol_zero.
Proof. intros E. unfold mread. by rewrite E. Qed.

Lemma mread_Some `{Countable K} {V : Type} `{SolZero V} (m : gmap K V) k v :
  m !! k = Some v → mread m k = v.
Proof. intros E. unfold mread. by rewrite E. Qed.

(** *** What each function computes *)

Lemma onlyOwner_run e s :
  onlyOwner e s = if isOwner e s then Done tt s else Fail (Revert "Not authorized").
Proof. reflexivity. Qed.

Lemma onlyAuthorizedIssuer_run e s :
  onlyAuthorizedIssuer e s =
  if isAuthorizedIssuer e s then Done tt s else Fail (Revert "Not authorized issuer").
Proof. reflexivity. Qed.

Lemma validCertificate_run id e s :
  validCertificate id e s =
  if inCertificateRange id s then
    if Certificate.isValid (mread (certificates s) id) then
      if timestamp e <? Certificate.expiryDate (mread (certificates s) id)
      then Done tt s
      else Fail (Revert "Certificate expired")
    else Fail (Revert "Certificate not valid")
  else Fail (Revert "Invalid certificate ID").
Proof. unfold inCertificateRange. tx_run; reflexivity. Qed.

Lemma validCertificate_Done id e s :
  isValidUnexpired id e s = true → validCertificate id e s = Done tt s.
Proof.
  unfold isValidUnexpired. rewrite validCertificate_run.
  intros [[-> ->]%andb_prop ->]%andb_prop. reflexivity.
Qed.

Lemma validCertificate_Fail id e s :
  isValidUnexpired id e s = false → ∃ reason, validCertificate id e s = Fail (Revert reason).
Proof.
  unfold isValidUnexpired. rewrite validCertificate_run. intros E.
  repeat case_match; eauto; simpl in E; discriminate.
Qed.

Lemma authorizeIssuer_run i o e s :
  authorizeIssuer i o e s =
  if isOwner e s
  then Done tt (set_events (events s ++ [IssuerAuthorized i o])%list
                  (set_authorizedIssuers (<[i := true]> (authorizedIssuers s)) s))
  else Fail (Revert "Not authorized").
Proof. unfold authorizeIssuer, isOwner. tx_run; reflexivity. Qed.

Lemma revokeIssuer_run i e s :
  revokeIssuer i e s =
  if isOwner e s
  then Done tt (set_events (events s ++ [IssuerRevoked i])%list
                  (set_authorizedIssuers (<[i := false]> (authorizedIssuers s)) s))
  else Fail (Revert "Not authorized").
Proof. unfold revokeIssuer, isOwner. tx_run; reflexivity. Qed.

Lemma setProfessionRequirements_run p sc lv e s :
  setProfessionRequirements p sc lv e s =
  if isOwner e s
  then Done tt (set_minimumLevelRequirement (<[p := lv]> (minimumLevelRequirement s))
                  (set_minimumScoreRequirement (<[p := sc]> (minimumScoreRequirement s)) s))
  else Fail (Revert "Not authorized").
Proof. unfold setProfessionRequirements, isOwner. tx_run; reflexivity. Qed.

Lemma emergencyPause_run e s :
  emergencyPause e s = if isOwner e s then Done tt s else Fail (Revert "Not authorized").
Proof. unfold emergencyPause, isOwner. tx_run; reflexivity. Qed.

Lemma requestCertification_run p sc lv ev e s :
  requestCertification p sc lv ev e s =
  if sc <=? 100 then
    if lv <=? 10 then
      if (0 <? String.length p)%nat then
        if (0 <? String.length ev)%nat then
          if nextRequestId s + 1 <=? MAX_UINT256
          then Done tt (request_post p sc lv ev e s)
          else Fail (Panic 17)
        else Fail (Revert "Evidence required")
      else Fail (Revert "Profession required")
    else Fail (Revert "Level must be between 1-10")
  else Fail (Revert "Score must be between 0-100").
Proof. unfold requestCertification. tx_run; reflexivity. Qed.

Lemma _issueCertificate_run h p sc lv iss e s :
  _issueCertificate h p sc lv iss e s =
  if timestamp e + ONE_YEAR <=? MAX_UINT256 then
    if nextCertificateId s + 1 <=? MAX_UINT256
    then Done tt (issue_post h p sc lv iss e s)
    else Fail (Panic 17)
  else Fail (Panic 17).
Proof. unfold _issueCertificate. tx_run; reflexivity. Qed.

Lemma processCertificationRequest_run id iss e s :
  processCertificationRequest id iss e s =
  if isAuthorizedIssuer e s then
    if (0 <? id) && (id <? nextRequestId s) then
      if negb (CertificationRequest.isProcessed (mread (certificationRequests s) id)) then
        if timestamp e + ONE_YEAR <=? MAX_UINT256 then
          if nextCertificateId s + 1 <=? MAX_UINT256
          then Done tt (process_post id iss e s)
          else Fail (Panic 17)
        else Fail (Panic 17)
      else Fail (Revert "Request already processed")
    else Fail (Revert "Invalid request ID")
  else Fail (Revert "Not authorized issuer").
Proof.
  unfold processCertificationRequest, isAuthorizedIssuer. tx_prims. st_simpl.
  do 3 (tx_case; st_simpl; [| reflexivity]).
  rewrite !mread_insert_eq, insert_insert_eq.
  cbn [CertificationRequest.isApproved CertificationRequest.set_isApproved].
  rewrite _issueCertificate_run. st_simpl.
  destruct (timestamp e + ONE_YEAR <=? MAX_UINT256); [| reflexivity].
  destruct (nextCertificateId s + 1 <=? MAX_UINT256); [| reflexivity].
  cbv beta iota.
  match goal with |- context [ nextCertificateId ?x ] => set (s2 := x) end.
  change (nextCertificateId s2) with (nextCertificateId s + 1).
  replace (1 <=? nextCertificateId s + 1) with true by (symmetry; apply N.leb_le; lia).
  rewrite N.add_sub. reflexivity.
Qed.

Lemma revokeCertificate_run id reason e s :
  revokeCertificate id reason e s =
  if isAuthorizedIssuer e s then
    match validCertificate id e s with
    | Done _ _ => Done tt (revoke_post id reason s)
    | Fail f => Fail f
    end
  else Fail (Revert "Not authorized issuer").
Proof.
  unfold revokeCertificate. rewrite validCertificate_run.
  unfold isAuthorizedIssuer, inCertificateRange. tx_run; reflexivity.
Qed.

Lemma extendCertificateValidity_run id days e s :
  extendCertificateValidity id days e s =
  if isAuthorizedIssuer e s then
    match validCertificate id e s with
    | Done _ _ =>
        if days * ONE_DAY <=? MAX_UINT256 then
          if Certificate.expiryDate (mread (certificates s) id) + days * ONE_DAY
             <=? MAX_UINT256
          then Done tt (extend_post id days s)
          else Fail (Panic 17)
        else Fail (Panic 17)
    | Fail f => Fail f
    end
  else Fail (Revert "Not authorized issuer").
Proof.
  unfold extendCertificateValidity. rewrite validCertificate_run.
  unfold isAuthorizedIssuer, inCertificateRange. tx_run; reflexivity.
Qed.

Lemma verifyCertificate_run id e s :
  verifyCertificate id e s =
  match validCertificate id e s with
  | Done _ _ =>
      let cert := mread (certificates s) id in
      Done (Certificate.holder cert, Certificate.profession cert, Certificate.isValid cert,
            Certificate.issueDate cert, Certificate.expiryDate cert, Certificate.issuer cert,
            Certificate.hashedCredentials cert) s
  | Fail f => Fail f
  end.
Proof.
  unfold verifyCertificate. rewrite validCertificate_run.
  unfold inCertificateRange. tx_run; cbv zeta; try reflexivity.
  match goal with H : Certificate.isValid _ = true |- _ => by rewrite H end.
Qed.

Lemma getEncryptedScore_run id e s :
  getEncryptedScore id e s =
  match validCertificate id e s with
  | Done _ _ =>
      if mayReadHandles id e s
      then Done (Certificate.encryptedScore (mread (certificates s) id)) s
      else Fail (Revert "Not authorized to view score")
  | Fail f => Fail f
  end.
Proof.
  unfold getEncryptedScore. rewrite validCertificate_run.
  unfold inCertificateRange, mayReadHandles. tx_run; reflexivity.
Qed.

Lemma getEncryptedLevel_run id e s :
  getEncryptedLevel id e s =
  match validCertificate id e s with
  | Done _ _ =>
      if mayReadHandles id e s
      then Done (Certificate.encryptedLevel (mread (certificates s) id)) s
      else Fail (Revert "Not authorized to view level")
  | Fail f => Fail f
  end.
Proof.
  unfold getEncryptedLevel. rewrite validCertificate_run.
  unfold inCertificateRange, mayReadHandles. tx_run; reflexivity.
Qed.

Lemma getCertificateCount_run e s :
  getCertificateCount e s =
  if 1 <=? nextCertificateId s then Done (nextCertificateId s - 1) s else Fail (Panic 17).
Proof. reflexivity. Qed.

Lemma getRequestCount_run e s :
  getRequestCount e s =
  if 1 <=? nextRequestId s then Done (nextRequestId s - 1) s else Fail (Panic 17).
Proof. reflexivity. Qed.

(** *** Views do not write *)

Lemma validCertificate_readonly id : readonly (validCertificate id).
Proof.
  intros e s a s'. rewrite validCertificate_run.
  repeat case_match; congruence.
Qed.

Lemma verifyCertificate_readonly id : readonly (verifyCertificate id).
Proof.
  intros e s a s'. rewrite verifyCertificate_run.
  destruct (validCertificate id e s); cbv zeta; congruence.
Qed.

Lemma getEncryptedScore_readonly id : readonly (getEncryptedScore id).
Proof.
  intros e s a s'. rewrite getEncryptedScore_run.
  repeat case_match; congruence.
Qed.

Lemma getEncryptedLevel_readonly id : readonly (getEncryptedLevel id).
Proof.
  intros e s a s'. rewrite getEncryptedLevel_run.
  repeat case_match; congruence.
Qed.

Lemma getHolderCertificates_readonly h : readonly (getHolderCertificates h).
Proof. intros e s a s'. unfold getHolderCertificates, get. congruence. Qed.

Lemma getProfessionRequirements_readonly p : readonly (getProfessionRequirements p).
Proof. intros e s a s'. unfold getProfessionRequirements, get. congruence. Qed.

Lemma getCertificateCount_readonly : readonly getCertificateCount.
Proof.
  intros e s a s'. rewrite getCertificateCount_run. case_match; congruence.
Qed.

Lemma getRequestCount_readonly : readonly getRequestCount.
Proof.
  intros e s a s'. rewrite getRequestCount_run. case_match; congruence.
Qed.

Lemma commit_discard_readonly {A : Type} (m : Tx A) e s :
  readonly m → commit (discard m) e s = s.
Proof.
  intros Hm. unfold commit, discard, mbind, Tx_bind, mret, Tx_ret.
  destruct (m e s) as [a s'|] eqn:E; [| reflexivity].
  exact (Hm _ _ _ _ E).
Qed.

(** *** Decoding the arguments *)

Lemma commit_abi_decode {A : Type} ok (m : Tx A) e s :
  commit (abi_decode ok m) e s = if ok then commit m e s else s.
Proof. unfold commit, abi_decode. by destruct ok. Qed.

Lemma commit_abi_decode_Fail {A : Type} ok (m : Tx A) e s f :
  m e s = Fail f → commit (abi_decode ok m) e s = s.
Proof. intros Hm. rewrite commit_abi_decode. unfold commit. rewrite Hm. by destruct ok. Qed.

Lemma commit_abi_decode_Done {A : Type} ok (m : Tx A) e s a s' :
  ok = true → m e s = Done a s' → commit (abi_decode ok m) e s = s'.
Proof. intros -> Hm. rewrite commit_abi_decode. unfold commit. by rewrite Hm. Qed.

Lemma succeeds_abi_decode {A : Type} ok (m : Tx A) e s :
  succeeds (abi_decode ok m) e s = ok && succeeds m e s.
Proof. unfold succeeds, abi_decode. by destruct ok. Qed.

(** Whatever holds when the call changes nothing and when the function
    has run, holds after the call. *)
Lemma abi_decode_cases {A : Type} (P : State → Prop) ok (m : Tx A) e s :
  P s → P (commit m e s) → P (commit (abi_decode ok m) e s).
Proof. intros Hs Hm. rewrite commit_abi_decode. by destruct ok. Qed.

(** *** Every transaction has one of the effects *)


Lemma transact_effect e c s : effect e s (transact e c s).
Proof.
  unfold transact.
  destruct c; cbn [dispatch];
    try (rewrite commit_abi_decode;
         match goal with
         | |- context [ if ?ok then _ else _ ] => destruct ok eqn:Hok
         end; [| apply effect_none]);
    try (rewrite commit_discard_readonly;
         [ apply effect_none
         | auto using verifyCertificate_readonly, getHolderCertificates_readonly,
             getCertificateCount_readonly, getRequestCount_readonly,
             getProfessionRequirements_readonly, getEncryptedScore_readonly,
             getEncryptedLevel_readonly ]);
    unfold commit.
  - rewrite authorizeIssuer_run. guard_split; [| apply effect_none].
    by apply effect_issuer.
  - rewrite revokeIssuer_run. guard_split; [| apply effect_none].
    by apply effect_issuer.
  - rewrite setProfessionRequirements_run. guard_split; [| apply effect_none].
    apply andb_prop in Hok as [Hsc%N.ltb_lt Hlv%N.ltb_lt].
    by apply effect_requirements.
  - rewrite requestCertification_run.
    do 5 (guard_split; [| apply effect_none]).
    apply effect_request. by apply N.leb_le.
  - rewrite processCertificationRequest_run.
    do 5 (guard_split; [| apply effect_none]).
    apply effect_process; [| by apply N.leb_le ..].
    unfold isPendingRequest. by apply andb_true_intro.
  - rewrite revokeCertificate_run, validCertificate_run.
    do 4 (guard_split; [| apply effect_none]).
    apply effect_revoke. unfold isValidUnexpired.
    repeat match goal with H : _ = true |- _ => rewrite H; clear H end. reflexivity.
  - rewrite extendCertificateValidity_run, validCertificate_run.
    do 6 (guard_split; [| apply effect_none]).
    apply effect_extend. unfold isValidUnexpired.
    repeat match goal with H : _ = true |- _ => rewrite H; clear H end. reflexivity.
  - rewrite emergencyPause_run. guard_split; apply effect_none.
Qed.

(** *** Monotone facts along transactions *)


Lemma isPendingRequest_true id s :
  isPendingRequest id s = true ↔
  (1 ≤ id < nextRequestId s
   ∧ CertificationRequest.isProcessed (mread (certificationRequests s) id) = false).
Proof.
  unfold isPendingRequest.
  rewrite !andb_true_iff, negb_true_iff, !N.ltb_lt. intuition lia.
Qed.

Lemma isValidUnexpired_true id e s :
  isValidUnexpired id e s = true ↔
  (1 ≤ id ≤ nextCertificateId s
   ∧ Certificate.isValid (mread (certificates s) id) = true
   ∧ timestamp e < Certificate.expiryDate (mread (certificates s) id)).
Proof.
  unfold isValidUnexpired, inCertificateRange.
  rewrite !andb_true_iff, N.ltb_lt, N.leb_le, N.ltb_lt. intuition lia.
Qed.

(** A processed request stays processed, and its id stays assigned. *)
Lemma effect_processed e s s' id :
  effect e s s' →
  id < nextRequestId s →
  CertificationRequest.isProcessed (mread (certificationRequests s) id) = true →
  id < nextRequestId s'
  ∧ CertificationRequest.isProcessed (mread (certificationRequests s') id) = true.
Proof.
  intros Heff Hid Hp.
  destruct Heff as [ | | | p sc lv ev _ | id0 iss _ _ _ | | ]; post_simpl; try done.
  - split; [lia |]. rewrite mread_insert_ne by lia. done.
  - split; [done |].
    destruct (decide (id0 = id)) as [-> | Hne].
    + by rewrite mread_insert_eq.
    + by rewrite mread_insert_ne.
Qed.

Lemma steps_processed s s' id :
  steps s s' →
  id < nextRequestId s →
  CertificationRequest.isProcessed (mread (certificationRequests s) id) = true →
  id < nextRequestId s'
  ∧ CertificationRequest.isProcessed (mread (certificationRequests s') id) = true.
Proof.
  intros Hsteps Hid Hp.
  induction Hsteps as [| s' e c _ [IH1 IH2]]; [done |].
  exact (effect_processed _ _ _ _ (transact_effect e c s') IH1 IH2).
Qed.

(** An invalid certificate stays invalid, and its id stays assigned. *)
Lemma effect_invalid e s s' id :
  effect e s s' →
  id < nextCertificateId s →
  Certificate.isValid (mread (certificates s) id) = false →
  id < nextCertificateId s'
  ∧ Certificate.isValid (mread (certificates s') id) = false.
Proof.
  intros Heff Hid Hv.
  destruct Heff as [ | | | | id0 iss _ _ _ | id0 reason _ | id0 days _ ];
    post_simpl; try done.
  - split; [lia |]. rewrite mread_insert_ne by lia. done.
  - split; [done |].
    destruct (decide (id0 = id)) as [-> | Hne].
    + by rewrite mread_insert_eq.
    + by rewrite mread_insert_ne.
  - split; [done |].
    destruct (decide (id0 = id)) as [-> | Hne].
    + by rewrite mread_insert_eq.
    + by rewrite mread_insert_ne.
Qed.

Lemma steps_invalid s s' id :
  steps s s' →
  id < nextCertificateId s →
  Certificate.isValid (mread (certificates s) id) = false →
  id < nextCertificateId s'
  ∧ Certificate.isValid (mread (certificates s') id) = false.
Proof.
  intros Hsteps Hid Hv.
  induction Hsteps as [| s' e c _ [IH1 IH2]]; [done |].
  exact (effect_invalid _ _ _ _ (transact_effect e c s') IH1 IH2).
Qed.

(** *** Reachable states are consistent *)

Lemma countsFromOne_snoc l n :
  countsFromOne l n → countsFromOne (l ++ [n]) (n + 1).
Proof.
  intros [Hl Hn]. split.
  - intros k id [[_ Hk] | [-> <-]]%lookup_snoc_Some; [by apply Hl | done].
  - rewrite length_app. cbn. lia.
Qed.

Lemma countsFromOne_pos l n : countsFromOne l n → 1 ≤ n.
Proof. intros [_ <-]. lia. Qed.

Lemma pending_lookup id s :
  consistent s → isPendingRequest id s = true →
  ∃ r, certificationRequests s !! id = Some r
       ∧ CertificationRequest.isProcessed r = false.
Proof.
  intros Hc [Hid Hp]%isPendingRequest_true.
  destruct (proj2 (requests_dom s Hc id) Hid) as [r Hr].
  exists r. split; [done |]. by rewrite (mread_Some _ _ _ Hr) in Hp.
Qed.

Lemma valid_lookup id e s :
  consistent s → isValidUnexpired id e s = true →
  ∃ c, certificates s !! id = Some c
       ∧ Certificate.isValid c = true
       ∧ timestamp e < Certificate.expiryDate c
       ∧ 1 ≤ id < nextCertificateId s.
Proof.
  intros Hc (_ & Hv & Hexp)%isValidUnexpired_true.
  destruct (certificates s !! id) as [c |] eqn:Hl.
  - rewrite (mread_Some _ _ _ Hl) in Hv, Hexp.
    exists c. repeat split; try done; by apply (certificates_dom s Hc id).
  - by rewrite (mread_None _ _ Hl) in Hv.
Qed.

Lemma deploy_fields e :
  owner (deploy e) = sender e
  ∧ nextCertificateId (deploy e) = 1
  ∧ nextRequestId (deploy e) = 1
  ∧ certificates (deploy e) = ∅
  ∧ certificationRequests (deploy e) = ∅
  ∧ holderCertificates (deploy e) = ∅
  ∧ authorizedIssuers (deploy e) = ∅
  ∧ events (deploy e) = [].
Proof. repeat split; reflexivity. Qed.

Lemma consistent_deploy e : consistent (deploy e).
Proof.
  destruct (deploy_fields e) as (_ & Hc & Hr & Hcs & Hrs & _ & _ & Hev).
  split; unfold pendingCount, requestIdsAssigned, certificateIdsAssigned;
    rewrite ?Hc, ?Hr, ?Hcs, ?Hrs, ?Hev.
  - intros id. rewrite lookup_empty. split; [by intros [? ?] | lia].
  - intros id. rewrite lookup_empty. split; [by intros [? ?] | lia].
  - unfold MAX_UINT256. lia.
  - by rewrite map_filter_empty, map_size_empty.
  - split; [by intros k id | done].
  - split; [by intros k id | done].
Qed.

Lemma consistent_effect e s s' : effect e s s' → consistent s → consistent s'.
Proof.
  intros Heff Hc.
  pose proof (countsFromOne_pos _ _ (requestIds_log s Hc)) as Hr1.
  pose proof (countsFromOne_pos _ _ (certificateIds_log s Hc)) as Hc1.
  destruct Heff as [ | i b ev Hev1 Hev2 | | p sc lv ev Hb | id iss Hpend Hts Hb
                  | id reason Hval | id days Hval ].
  - done.
  - destruct Hc as [H1 H2 H3 H4 H5 H6].
    split; unfold pendingCount, requestIdsAssigned, certificateIdsAssigned in *;
      st_simpl; try done.
    + by rewrite omap_app; cbn; rewrite Hev1, app_nil_r.
    + by rewrite omap_app; cbn; rewrite Hev2, app_nil_r.
  - destruct Hc as [H1 H2 H3 H4 H5 H6]. by split.
  - destruct Hc as [H1 H2 H3 H4 H5 H6].
    assert (certificationRequests s !! nextRequestId s = None) as Hfresh.
    { apply eq_None_not_Some. rewrite H1. lia. }
    split; unfold pendingCount, requestIdsAssigned, certificateIdsAssigned in *;
      post_simpl; try done.
    + intros id. rewrite lookup_insert_is_Some', H1. lia.
    + rewrite map_filter_insert_True by done.
      rewrite map_size_insert_None by (apply map_lookup_filter_None_2; by left).
      lia.
    + rewrite omap_app. cbn. by apply countsFromOne_snoc.
    + by rewrite omap_app; cbn; rewrite app_nil_r.
  - destruct (pending_lookup _ _ Hc Hpend) as (r & Hr & Hrp).
    apply isPendingRequest_true in Hpend as [Hid _].
    destruct Hc as [H1 H2 H3 H4 H5 H6].
    split; unfold pendingCount, requestIdsAssigned, certificateIdsAssigned in *;
      post_simpl; try done.
    + intros id'. rewrite lookup_insert_is_Some', H1. split; [| by auto].
      intros [<- | ?]; [lia | done].
    + intros id'. rewrite lookup_insert_is_Some', H2. lia.
    + rewrite map_filter_insert_False by (unfold unprocessed; cbn; congruence).
      rewrite map_filter_delete.
      assert (filter unprocessed (certificationRequests s) !! id = Some r) as Hin
        by (by apply map_lookup_filter_Some_2).
      rewrite map_size_delete_Some by eauto.
      assert (size (filter unprocessed (certificationRequests s)) ≠ 0%nat).
      { intros Hz%map_size_empty_iff. by rewrite Hz, lookup_empty in Hin. }
      lia.
    + rewrite !omap_app. cbn. by rewrite !app_nil_r.
    + rewrite !omap_app. cbn. rewrite app_nil_r. by apply countsFromOne_snoc.
  - destruct (valid_lookup _ _ _ Hc Hval) as (c & Hl & _ & _ & Hid).
    destruct Hc as [H1 H2 H3 H4 H5 H6].
    split; unfold pendingCount, requestIdsAssigned, certificateIdsAssigned in *;
      post_simpl; try done.
    + intros id'. rewrite lookup_insert_is_Some', H2. split; [| by auto].
      intros [<- | ?]; [lia | done].
    + rewrite omap_app. cbn. by rewrite app_nil_r.
    + rewrite omap_app. cbn. by rewrite app_nil_r.
  - destruct (valid_lookup _ _ _ Hc Hval) as (c & Hl & _ & _ & Hid).
    destruct Hc as [H1 H2 H3 H4 H5 H6].
    split; unfold pendingCount, requestIdsAssigned, certificateIdsAssigned in *;
      post_simpl; try done.
    intros id'. rewrite lookup_insert_is_Some', H2. split; [| by auto].
    intros [<- | ?]; [lia | done].
Qed.

Lemma reachable_consistent s : reachable s → consistent s.
Proof.
  induction 1 as [e | s e c _ IH].
  - apply consistent_deploy.
  - exact (consistent_effect _ _ _ (transact_effect e c s) IH).
Qed.

(** ** The owner's emergency switch *)

(** C10.  [emergencyPause] called by the owner completes and returns the
    state it was called in: every storage variable (certificates, requests,
    holder lists, issuer flags, profession requirements, both counters, the
    owner) is as before, and the event log has not grown. *)
Theorem emergencyPause_owner_noop e s :
  sender e = owner s →
  emergencyPause e s = Done tt s
  ∧ transact e EmergencyPause s = s.
Proof.
  intros Hown.
  assert (emergencyPause e s = Done tt s) as Hrun.
  { rewrite emergencyPause_run. unfold isOwner. by rewrite Hown, N.eqb_refl. }
  split; [done |]. unfold transact, commit. cbn [dispatch]. by rewrite Hrun.
Qed.

(** ** Access control *)

Lemma not_owner e s : sender e ≠ owner s → isOwner e s = false.
Proof. intros. unfold isOwner. by apply N.eqb_neq. Qed.

Lemma not_issuer e s :
  sender e ≠ owner s → mread (authorizedIssuers s) (sender e) = false →
  isAuthorizedIssuer e s = false.
Proof.
  intros Hown Hflag. unfold isAuthorizedIssuer. rewrite Hflag.
  by apply N.eqb_neq.
Qed.

(** C5.  A caller other than the owner cannot run [authorizeIssuer],
    [revokeIssuer] or [setProfessionRequirements]; a caller that is neither
    a flagged issuer nor the owner cannot run [processCertificationRequest],
    [revokeCertificate] or [extendCertificateValidity].  Each such call
    reverts, and the transaction leaves the state, hence the issuer flags,
    the profession requirements, the requests and the certificates,
    exactly as it was. *)
Theorem unauthorized_calls_fail e s :
  (sender e ≠ owner s →
     (∀ i o, authorizeIssuer i o e s = Fail (Revert "Not authorized")
             ∧ transact e (AuthorizeIssuer i o) s = s)
     ∧ (∀ i, revokeIssuer i e s = Fail (Revert "Not authorized")
             ∧ transact e (RevokeIssuer i) s = s)
     ∧ (∀ p sc lv, setProfessionRequirements p sc lv e s = Fail (Revert "Not authorized")
                   ∧ transact e (SetProfessionRequirements p sc lv) s = s))
  ∧ (sender e ≠ owner s → mread (authorizedIssuers s) (sender e) = false →
     (∀ id iss, processCertificationRequest id iss e s
                  = Fail (Revert "Not authorized issuer")
                ∧ transact e (ProcessCertificationRequest id iss) s = s)
     ∧ (∀ id reason, revokeCertificate id reason e s
                       = Fail (Revert "Not authorized issuer")
                     ∧ transact e (RevokeCertificate id reason) s = s)
     ∧ (∀ id days, extendCertificateValidity id days e s
                     = Fail (Revert "Not authorized issuer")
                   ∧ transact e (ExtendCertificateValidity id days) s = s)).
Proof.
  split.
  - intros Hown%not_owner.
    assert (∀ i o, authorizeIssuer i o e s = Fail (Revert "Not authorized")) as H1
      by (intros; by rewrite authorizeIssuer_run, Hown).
    assert (∀ i, revokeIssuer i e s = Fail (Revert "Not authorized")) as H2
      by (intros; by rewrite revokeIssuer_run, Hown).
    assert (∀ p sc lv, setProfessionRequirements p sc lv e s
                       = Fail (Revert "Not authorized")) as H3
      by (intros; by rewrite setProfessionRequirements_run, Hown).
    repeat split; auto; unfold transact; cbn [dispatch];
      eapply commit_abi_decode_Fail; auto.
  - intros Hown Hflag. pose proof (not_issuer _ _ Hown Hflag) as Hno.
    assert (∀ id iss, processCertificationRequest id iss e s
                      = Fail (Revert "Not authorized issuer")) as H1
      by (intros; by rewrite processCertificationRequest_run, Hno).
    assert (∀ id reason, revokeCertificate id reason e s
                         = Fail (Revert "Not authorized issuer")) as H2
      by (intros; by rewrite revokeCertificate_run, Hno).
    assert (∀ id days, extendCertificateValidity id days e s
                       = Fail (Revert "Not authorized issuer")) as H3
      by (intros; by rewrite extendCertificateValidity_run, Hno).
    repeat split; auto; unfold transact; cbn [dispatch];
      eapply commit_abi_decode_Fail; auto.
Qed.

(** ** Requests are processed once *)

Lemma processCertificationRequest_Done id iss e s s' :
  processCertificationRequest id iss e s = Done tt s' →
  isAuthorizedIssuer e s = true
  ∧ isPendingRequest id s = true
  ∧ timestamp e + ONE_YEAR ≤ MAX_UINT256
  ∧ nextCertificateId s + 1 ≤ MAX_UINT256
  ∧ s' = process_post id iss e s.
Proof.
  rewrite processCertificationRequest_run. unfold isPendingRequest.
  destruct (isAuthorizedIssuer e s); [| done].
  destruct ((0 <? id) && (id <? nextRequestId s)); [| done].
  destruct (negb _); [| done].
  destruct (timestamp e + ONE_YEAR <=? MAX_UINT256) eqn:E1; [| done].
  destruct (nextCertificateId s + 1 <=? MAX_UINT256) eqn:E2; [| done].
  intros [= <-]. apply N.leb_le in E1, E2. done.
Qed.

(** C2.  Once [processCertificationRequest] has completed on a request id,
    every later call on that id, after any number of transactions, from any
    caller and with any issuer name, reverts; the transaction leaves the
    state, and so the request, unchanged.  An authorized caller is told that
    the request was already processed. *)
Theorem request_processed_at_most_once s e id iss s1 s2 e' iss' :
  processCertificationRequest id iss e s = Done tt s1 →
  steps s1 s2 →
  processCertificationRequest id iss' e' s2
    = Fail (Revert (if isAuthorizedIssuer e' s2
                    then "Request already processed"
                    else "Not authorized issuer"))
  ∧ transact e' (ProcessCertificationRequest id iss') s2 = s2
  ∧ mread (certificationRequests
             (transact e' (ProcessCertificationRequest id iss') s2)) id
    = mread (certificationRequests s2) id.
Proof.
  intros (_ & [[Hid1 Hid2] _]%isPendingRequest_true & _ & _ & ->)
    %processCertificationRequest_Done Hsteps.
  assert (id < nextRequestId (process_post id iss e s)
          ∧ CertificationRequest.isProcessed
              (mread (certificationRequests (process_post id iss e s)) id) = true)
    as [Hlt Hp].
  { post_simpl. by rewrite mread_insert_eq. }
  destruct (steps_processed _ _ _ Hsteps Hlt Hp) as [Hlt2 Hp2].
  assert (processCertificationRequest id iss' e' s2
          = Fail (Revert (if isAuthorizedIssuer e' s2
                          then "Request already processed"
                          else "Not authorized issuer"))) as Hrun.
  { rewrite processCertificationRequest_run.
    destruct (isAuthorizedIssuer e' s2); [| done].
    replace ((0 <? id) && (id <? nextRequestId s2)) with true
      by (symmetry; apply andb_true_intro; split; apply N.ltb_lt; lia).
    by rewrite Hp2. }
  assert (transact e' (ProcessCertificationRequest id iss') s2 = s2) as Htx
    by (unfold transact; cbn [dispatch]; eapply commit_abi_decode_Fail; exact Hrun).
  by rewrite Htx.
Qed.

(** ** Revocation *)

(** C4.  Revocation is one-directional.  If the certificate with an id that
    has been handed out (an id below [nextCertificateId]) has its [isValid]
    flag false, the flag is still false after any sequence of transactions,
    whatever they call and whoever sends them. *)
Theorem revocation_is_permanent s s' id :
  id < nextCertificateId s →
  Certificate.isValid (mread (certificates s) id) = false →
  steps s s' →
  Certificate.isValid (mread (certificates s') id) = false.
Proof.
  intros Hid Hv Hsteps. by apply (steps_invalid _ _ _ Hsteps Hid Hv).
Qed.

(** ** Identifiers *)

Lemma countsFromOne_increasing l n (i j : nat) a b :
  countsFromOne l n → (i < j)%nat → l !! i = Some a → l !! j = Some b → a < b.
Proof.
  intros [Hl _] Hij Ha%Hl Hb%Hl. lia.
Qed.

Lemma requestCertification_Done p sc lv ev e s s' :
  requestCertification p sc lv ev e s = Done tt s' →
  validInput p sc lv ev = true
  ∧ nextRequestId s + 1 ≤ MAX_UINT256
  ∧ s' = request_post p sc lv ev e s.
Proof.
  rewrite requestCertification_run. unfold validInput.
  destruct (sc <=? 100); [| done].
  destruct (lv <=? 10); [| done].
  destruct (0 <? String.length p)%nat; [| done].
  destruct (0 <? String.length ev)%nat; [| done].
  destruct (nextRequestId s + 1 <=? MAX_UINT256) eqn:E; [| done].
  intros [= <-]. apply N.leb_le in E. done.
Qed.

(** ** Reading certificates *)

(** C3.  In every reachable state [verifyCertificate] reverts for id 0 and
    for every id above the last certificate id handed out, for every id
    whose stored validity flag is false, and for every id whose stored
    expiry is not after the current time.  For an id whose stored flag is
    true and whose stored expiry is after the current time it returns the
    stored holder, profession, validity flag, issue date, expiry date,
    issuer and credential hash, and the state is unchanged. *)
Theorem verifyCertificate_spec s e id :
  reachable s →
  let c := mread (certificates s) id in
  (id = 0 ∨ nextCertificateId s - 1 < id →
     ∃ reason, verifyCertificate id e s = Fail (Revert reason))
  ∧ (Certificate.isValid c = false →
     ∃ reason, verifyCertificate id e s = Fail (Revert reason))
  ∧ (Certificate.expiryDate c ≤ timestamp e →
     ∃ reason, verifyCertificate id e s = Fail (Revert reason))
  ∧ (Certificate.isValid c = true → timestamp e < Certificate.expiryDate c →
     verifyCertificate id e s
     = Done (Certificate.holder c, Certificate.profession c, Certificate.isValid c,
             Certificate.issueDate c, Certificate.expiryDate c, Certificate.issuer c,
             Certificate.hashedCredentials c) s).
Proof.
  intros Hc%reachable_consistent c.
  pose proof (countsFromOne_pos _ _ (certificateIds_log s Hc)) as Hpos.
  assert (isValidUnexpired id e s = false →
          ∃ reason, verifyCertificate id e s = Fail (Revert reason)) as Hfail.
  { intros [reason Hr]%validCertificate_Fail. exists reason.
    by rewrite verifyCertificate_run, Hr. }
  assert (Certificate.isValid c = false → isValidUnexpired id e s = false) as Hinv.
  { intros Hv. unfold isValidUnexpired. fold c. rewrite Hv.
    by rewrite andb_false_r. }
  repeat split.
  - intros Hout. apply Hfail.
    destruct (isValidUnexpired id e s) eqn:E; [| done].
    destruct (valid_lookup _ _ _ Hc E) as (_ & _ & _ & _ & Hid). lia.
  - intros Hv. by apply Hfail, Hinv.
  - intros Hexp. apply Hfail. unfold isValidUnexpired. fold c.
    replace (timestamp e <? Certificate.expiryDate c) with false
      by (symmetry; apply N.ltb_ge; lia).
    by rewrite andb_false_r.
  - intros Hv Hexp.
    destruct (certificates s !! id) as [c' |] eqn:Hl;
      [| by (subst c; rewrite (mread_None _ _ Hl) in Hv)].
    assert (1 ≤ id < nextCertificateId s) as Hid
      by (apply (certificates_dom s Hc); eauto).
    rewrite verifyCertificate_run, validCertificate_Done; [done |].
    apply isValidUnexpired_true. fold c. repeat split; try done; lia.
Qed.

(** C9.  In every reachable state [getEncryptedScore] and
    [getEncryptedLevel] return the stored handle, and leave the state
    unchanged, exactly when the stored validity flag of the certificate is
    true, its stored expiry is after the current time, and the caller is
    the certificate's holder, a flagged issuer or the owner.  In every other
    case both revert, so no handle is returned. *)
Theorem encrypted_handles_access s e id :
  reachable s →
  let c := mread (certificates s) id in
  let allowed :=
    Certificate.isValid c = true
    ∧ timestamp e < Certificate.expiryDate c
    ∧ (sender e = Certificate.holder c
       ∨ mread (authorizedIssuers s) (sender e) = true
       ∨ sender e = owner s) in
  (allowed →
     getEncryptedScore id e s = Done (Certificate.encryptedScore c) s
     ∧ getEncryptedLevel id e s = Done (Certificate.encryptedLevel c) s)
  ∧ (¬ allowed →
     (∃ reason, getEncryptedScore id e s = Fail (Revert reason))
     ∧ (∃ reason, getEncryptedLevel id e s = Fail (Revert reason))).
Proof.
  intros Hc%reachable_consistent c allowed.
  assert (mayReadHandles id e s = true ↔
          (sender e = Certificate.holder c
           ∨ mread (authorizedIssuers s) (sender e) = true
           ∨ sender e = owner s)) as Hmay.
  { unfold mayReadHandles. fold c. rewrite !orb_true_iff, !N.eqb_eq. tauto. }
  assert (isValidUnexpired id e s = true ↔
          (Certificate.isValid c = true ∧ timestamp e < Certificate.expiryDate c))
    as Hvalid.
  { split.
    - by intros (_ & ? & ?)%isValidUnexpired_true.
    - intros [Hv Hexp].
      destruct (certificates s !! id) as [c' |] eqn:Hl;
        [| by (subst c; rewrite (mread_None _ _ Hl) in Hv)].
      assert (1 ≤ id < nextCertificateId s) as Hid
        by (apply (certificates_dom s Hc); eauto).
      apply isValidUnexpired_true. fold c. repeat split; try done; lia. }
  split.
  - intros (Hv & Hexp & Hwho).
    rewrite getEncryptedScore_run, getEncryptedLevel_run.
    rewrite validCertificate_Done by (by apply Hvalid).
    by rewrite (proj2 Hmay Hwho).
  - intros Hnot.
    rewrite getEncryptedScore_run, getEncryptedLevel_run.
    destruct (isValidUnexpired id e s) eqn:E.
    + rewrite validCertificate_Done by done.
      destruct (mayReadHandles id e s) eqn:E2; [| eauto].
      exfalso. apply Hnot. destruct (proj1 Hvalid eq_refl) as [? ?].
      pose proof (proj1 Hmay eq_refl). done.
    + destruct (validCertificate_Fail _ _ _ E) as [reason ->]. eauto.
Qed.

(** ** Processing a request *)

Lemma pending_leaves_room s id :
  consistent s → isPendingRequest id s = true →
  nextCertificateId s + 1 ≤ MAX_UINT256.
Proof.
  intros Hc Hpend.
  destruct (pending_lookup _ _ Hc Hpend) as (r & Hr & Hrp).
  assert (filter unprocessed (certificationRequests s) !! id = Some r) as Hin
    by (by apply map_lookup_filter_Some_2).
  assert (pendingCount s ≠ 0%nat) as Hne.
  { unfold pendingCount. intros Hz%map_size_empty_iff.
    by rewrite Hz, lookup_empty in Hin. }
  pose proof (one_certificate_per_processed s Hc).
  pose proof (requestId_bound s Hc). lia.
Qed.

(** What the call does in a reachable state, by the one thing that can
    still stop it: whether [block.timestamp + 365 days] fits a [uint256].
    The certificate counter cannot overflow while a request is pending. *)
Lemma processCertificationRequest_completes s e id iss :
  reachable s →
  mread (authorizedIssuers s) (sender e) = true ∨ sender e = owner s →
  1 ≤ id < nextRequestId s →
  CertificationRequest.isProcessed (mread (certificationRequests s) id) = false →
  let r := mread (certificationRequests s) id in
  let cid := nextCertificateId s in
  (timestamp e + ONE_YEAR ≤ MAX_UINT256 →
     ∃ s', processCertificationRequest id iss e s = Done tt s'
       ∧ CertificationRequest.isProcessed (mread (certificationRequests s') id) = true
       ∧ CertificationRequest.isApproved (mread (certificationRequests s') id) = true
       ∧ certificates s !! cid = None
       ∧ certificates s' !! cid
         = Some (Certificate.mk
                   (CertificationRequest.applicant r) (CertificationRequest.profession r)
                   (CertificationRequest.encryptedScore r)
                   (CertificationRequest.encryptedLevel r)
                   true (timestamp e) (timestamp e + ONE_YEAR) iss
                   (keccak256_packed (CertificationRequest.applicant r)
                      (CertificationRequest.profession r) (timestamp e) cid))
       ∧ mread (holderCertificates s') (CertificationRequest.applicant r)
         = (mread (holderCertificates s) (CertificationRequest.applicant r) ++ [cid])%list
       ∧ nextCertificateId s' = cid + 1
       ∧ events s'
         = (events s ++
            [CertificateIssued cid (CertificationRequest.applicant r)
               (CertificationRequest.profession r);
             CertificationApproved id cid])%list)
  ∧ (MAX_UINT256 < timestamp e + ONE_YEAR →
     processCertificationRequest id iss e s = Fail (Panic 17)).
Proof.
  intros Hc%reachable_consistent Hwho Hid Hp r cid.
  assert (isAuthorizedIssuer e s = true) as Hauth.
  { unfold isAuthorizedIssuer. apply orb_true_iff.
    destruct Hwho as [? | ?]; [by left | right; by apply N.eqb_eq]. }
  assert (isPendingRequest id s = true) as Hpend by (by apply isPendingRequest_true).
  pose proof (pending_leaves_room _ _ Hc Hpend) as Hroom.
  pose proof (countsFromOne_pos _ _ (certificateIds_log s Hc)) as Hpos.
  assert ((0 <? id) && (id <? nextRequestId s) = true) as Hrange
    by (apply andb_true_intro; split; apply N.ltb_lt; lia).
  split.
  - intros Hts. exists (process_post id iss e s).
    split.
    { rewrite processCertificationRequest_run, Hauth, Hrange, Hp. cbn [negb].
      by rewrite (proj2 (N.leb_le _ _) Hts), (proj2 (N.leb_le _ _) Hroom). }
    post_simpl. rewrite !mread_insert_eq, !lookup_insert_eq.
    repeat split; try done.
    + apply eq_None_not_Some. rewrite (certificates_dom s Hc). lia.
    + by rewrite <- app_assoc.
  - intros Hts.
    rewrite processCertificationRequest_run, Hauth, Hrange, Hp. cbn [negb].
    by rewrite (proj2 (N.leb_gt _ _) Hts).
Qed.

(** [block.timestamp] counts the seconds since 1970; a block header holds
    it in 64 bits, far from where adding a year could overflow. *)
Lemma timestamp_leaves_room t : t < 2 ^ 64 → t + ONE_YEAR ≤ MAX_UINT256.
Proof.
  intros Ht.
  assert (2 ^ 64 + ONE_YEAR ≤ MAX_UINT256) by (vm_compute; discriminate).
  lia.
Qed.

(** C1.  In every reachable state, whenever an authorized issuer or the
    owner calls [processCertificationRequest] on an existing, still pending
    request (at a block timestamp, a 64-bit number), the call completes
    and the approval is unconditional: the request is marked processed and
    approved; a certificate is stored under [nextCertificateId], a key not
    used before, with the applicant, the profession and the two encrypted
    handles of the request, valid, with issue date the current time; that
    id is appended to the applicant's list; the events emitted are
    [CertificateIssued] and then [CertificationApproved] with the request
    id and the id of the certificate just issued, and no
    [CertificationRejected]. *)
Theorem processCertificationRequest_approves s e id iss :
  reachable s →
  mread (authorizedIssuers s) (sender e) = true ∨ sender e = owner s →
  1 ≤ id < nextRequestId s →
  CertificationRequest.isProcessed (mread (certificationRequests s) id) = false →
  timestamp e < 2 ^ 64 →
  let r := mread (certificationRequests s) id in
  let cid := nextCertificateId s in
  ∃ s', processCertificationRequest id iss e s = Done tt s'
    ∧ CertificationRequest.isProcessed (mread (certificationRequests s') id) = true
    ∧ CertificationRequest.isApproved (mread (certificationRequests s') id) = true
    ∧ certificates s !! cid = None
    ∧ certificates s' !! cid
      = Some (Certificate.mk
                (CertificationRequest.applicant r) (CertificationRequest.profession r)
                (CertificationRequest.encryptedScore r)
                (CertificationRequest.encryptedLevel r)
                true (timestamp e) (timestamp e + ONE_YEAR) iss
                (keccak256_packed (CertificationRequest.applicant r)
                   (CertificationRequest.profession r) (timestamp e) cid))
    ∧ mread (holderCertificates s') (CertificationRequest.applicant r)
      = (mread (holderCertificates s) (CertificationRequest.applicant r) ++ [cid])%list
    ∧ nextCertificateId s' = cid + 1
    ∧ events s'
      = (events s ++
         [CertificateIssued cid (CertificationRequest.applicant r)
            (CertificationRequest.profession r);
          CertificationApproved id cid])%list.
Proof.
  intros Hs Hwho Hid Hp Ht r cid.
  exact (proj1 (processCertificationRequest_completes s e id iss Hs Hwho Hid Hp)
           (timestamp_leaves_room _ Ht)).
Qed.

(** ** Submitting a request *)

(** [requestCertification] in any state: it completes exactly when the
    four checks pass and the counter has room for its increment. *)
Lemma requestCertification_outcome s e p sc lv ev :
  (succeeds (requestCertification p sc lv ev) e s = true ↔
     sc ≤ 100 ∧ lv ≤ 10 ∧ (0 < String.length p)%nat ∧ (0 < String.length ev)%nat
     ∧ nextRequestId s < MAX_UINT256)
  ∧ (¬ (sc ≤ 100 ∧ lv ≤ 10 ∧ (0 < String.length p)%nat ∧ (0 < String.length ev)%nat) →
     ∃ reason, requestCertification p sc lv ev e s = Fail (Revert reason))
  ∧ (succeeds (requestCertification p sc lv ev) e s = false →
     let s' := transact e (RequestCertification p sc lv ev) s in
     s' = s
     ∧ certificationRequests s' = certificationRequests s
     ∧ events s' = events s
     ∧ ∀ e', getRequestCount e' s' = getRequestCount e' s).
Proof.
  unfold succeeds.
  split; [| split].
  - rewrite requestCertification_run.
    destruct (sc <=? 100) eqn:E1;
      [apply N.leb_le in E1 | apply N.leb_gt in E1; split; [done | lia]].
    destruct (lv <=? 10) eqn:E2;
      [apply N.leb_le in E2 | apply N.leb_gt in E2; split; [done | lia]].
    destruct (0 <? String.length p)%nat eqn:E3;
      [apply Nat.ltb_lt in E3 | apply Nat.ltb_ge in E3; split; [done | lia]].
    destruct (0 <? String.length ev)%nat eqn:E4;
      [apply Nat.ltb_lt in E4 | apply Nat.ltb_ge in E4; split; [done | lia]].
    destruct (nextRequestId s + 1 <=? MAX_UINT256) eqn:E5;
      [apply N.leb_le in E5 | apply N.leb_gt in E5; split; [done | lia]].
    split; [intros _; repeat split; try done; lia | done].
  - intros Hbad. rewrite requestCertification_run.
    destruct (sc <=? 100) eqn:E1; [apply N.leb_le in E1 | eauto].
    destruct (lv <=? 10) eqn:E2; [apply N.leb_le in E2 | eauto].
    destruct (0 <? String.length p)%nat eqn:E3; [apply Nat.ltb_lt in E3 | eauto].
    destruct (0 <? String.length ev)%nat eqn:E4; [apply Nat.ltb_lt in E4 | eauto].
    by destruct Hbad.
  - intros Hfail.
    assert (transact e (RequestCertification p sc lv ev) s = s) as ->.
    { unfold transact. cbn [dispatch].
      destruct (requestCertification p sc lv ev e s) as [[] s' |f] eqn:Hrun; [done |].
      exact (commit_abi_decode_Fail _ _ e s f Hrun). }
    done.
Qed.

(** A score of at most 100 and a level of at most 10 fit their ABI types. *)
Lemma validInput_fits p sc lv ev :
  validInput p sc lv ev = true → fits 64 sc && fits 8 lv = true.
Proof.
  unfold validInput, fits.
  intros [[[Hsc%N.leb_le Hlv%N.leb_le]%andb_prop _]%andb_prop _]%andb_prop.
  apply andb_true_intro; split; apply N.ltb_lt.
  - assert (100 < 2 ^ 64) by (vm_compute; reflexivity). lia.
  - assert (10 < 2 ^ 8) by (vm_compute; reflexivity). lia.
Qed.

Lemma submissions_leave_room s :
  consistent s →
  N.of_nat (length (requestIdsAssigned s)) < MAX_UINT256 - 1 →
  nextRequestId s < MAX_UINT256.
Proof.
  intros Hc Hn. destruct (requestIds_log s Hc) as [_ <-]. lia.
Qed.

(** C6.  In every reachable state (one in which fewer than [2^256 - 2]
    submissions have completed, as in any state a chain can get to),
    [requestCertification] completes, as a function and as a call from
    outside, exactly when the score is at most 100, the level is at most
    10 and the profession and the evidence are non-empty.  When one of
    these checks fails, as with a score of 150,
    the call reverts; the transaction then leaves the state as it was: no
    request is stored, no event is emitted and [getRequestCount] answers
    as before. *)
Theorem requestCertification_succeeds_iff s e p sc lv ev :
  reachable s →
  N.of_nat (length (requestIdsAssigned s)) < MAX_UINT256 - 1 →
  (succeeds (requestCertification p sc lv ev) e s = true ↔
     sc ≤ 100 ∧ lv ≤ 10 ∧ (0 < String.length p)%nat ∧ (0 < String.length ev)%nat)
  ∧ (succeeds (dispatch (RequestCertification p sc lv ev)) e s = true ↔
     sc ≤ 100 ∧ lv ≤ 10 ∧ (0 < String.length p)%nat ∧ (0 < String.length ev)%nat)
  ∧ (¬ (sc ≤ 100 ∧ lv ≤ 10 ∧ (0 < String.length p)%nat ∧ (0 < String.length ev)%nat) →
     (∃ reason, requestCertification p sc lv ev e s = Fail (Revert reason))
     ∧ let s' := transact e (RequestCertification p sc lv ev) s in
       s' = s
       ∧ certificationRequests s' = certificationRequests s
       ∧ events s' = events s
       ∧ ∀ e', getRequestCount e' s' = getRequestCount e' s).
Proof.
  intros Hc%reachable_consistent Hn.
  pose proof (submissions_leave_room s Hc Hn) as Hroom.
  destruct (requestCertification_outcome s e p sc lv ev) as (Hiff & Hbad & Hsame).
  assert (succeeds (requestCertification p sc lv ev) e s = true ↔
          sc ≤ 100 ∧ lv ≤ 10 ∧ (0 < String.length p)%nat ∧ (0 < String.length ev)%nat)
    as Hiff' by (rewrite Hiff; tauto).
  split; [exact Hiff' |]. split.
  - assert (sc ≤ 100 ∧ lv ≤ 10 ∧ (0 < String.length p)%nat ∧ (0 < String.length ev)%nat
            → fits 64 sc && fits 8 lv = true) as Hfits.
    { intros (Hsc & Hlv & Hp & Hev). apply (validInput_fits p sc lv ev).
      unfold validInput.
      by rewrite (proj2 (N.leb_le _ _) Hsc), (proj2 (N.leb_le _ _) Hlv),
        (proj2 (Nat.ltb_lt _ _) Hp), (proj2 (Nat.ltb_lt _ _) Hev). }
    cbn [dispatch]. rewrite succeeds_abi_decode, andb_true_iff.
    split; [intros [_ Hrun]; by apply Hiff' |].
    intros Hvalid. split; [by apply Hfits | by apply Hiff'].
  - intros Hinvalid. split; [by apply Hbad |].
    apply Hsame, not_true_is_false. intros Hrun.
    apply Hinvalid. by apply Hiff'.
Qed.

(** ** Identifiers, again *)

Lemma countsFromOne_below l n id :
  countsFromOne l n → id ∈ l → id < N.of_nat (length l) + 1.
Proof.
  intros [Hl _] [k Hk]%list_elem_of_lookup_1.
  pose proof (lookup_lt_Some _ _ _ Hk). rewrite (Hl k id Hk). lia.
Qed.

(** C7.  Request ids and certificate ids are handed out as 1, 2, 3, ...
    Both logs of announced ids are empty after deployment, and in every
    reachable state the k-th id announced is k, so that a later id is
    strictly larger than an earlier one.  With [n] submissions and
    [m] issuances completed so far: a well-formed submission completes
    and receives the id [n + 1] (so the first receives 1), which is
    larger than every id announced before and a key under which no
    request was stored; and processing a pending request completes and
    issues the certificate with id [m + 1] (so the first is 1), larger
    than every certificate id announced before and unused as a key. *)
Theorem ids_assigned_from_one s :
  reachable s →
  let n := N.of_nat (length (requestIdsAssigned s)) in
  let m := N.of_nat (length (certificateIdsAssigned s)) in
  (∀ e0, requestIdsAssigned (deploy e0) = [] ∧ certificateIdsAssigned (deploy e0) = [])
  ∧ (∀ (k : nat) id, requestIdsAssigned s !! k = Some id → id = N.of_nat k + 1)
  ∧ (∀ (k : nat) id, certificateIdsAssigned s !! k = Some id → id = N.of_nat k + 1)
  ∧ (∀ (i j : nat) a b, (i < j)%nat →
       requestIdsAssigned s !! i = Some a → requestIdsAssigned s !! j = Some b → a < b)
  ∧ (∀ (i j : nat) a b, (i < j)%nat →
       certificateIdsAssigned s !! i = Some a → certificateIdsAssigned s !! j = Some b →
       a < b)
  ∧ (∀ e p sc lv ev,
       sc ≤ 100 → lv ≤ 10 → (0 < String.length p)%nat → (0 < String.length ev)%nat →
       n < MAX_UINT256 - 1 →
       ∃ s', requestCertification p sc lv ev e s = Done tt s'
             ∧ (∀ id, id ∈ requestIdsAssigned s → id < n + 1)
             ∧ certificationRequests s !! (n + 1) = None
             ∧ certificationRequests s' !! (n + 1) = Some (newRequest p sc lv ev e)
             ∧ events s' = (events s ++ [CertificationRequested (n + 1) (sender e) p])%list
             ∧ requestIdsAssigned s' = (requestIdsAssigned s ++ [n + 1])%list)
  ∧ (∀ e id iss,
       mread (authorizedIssuers s) (sender e) = true ∨ sender e = owner s →
       1 ≤ id < nextRequestId s →
       CertificationRequest.isProcessed (mread (certificationRequests s) id) = false →
       timestamp e < 2 ^ 64 →
       ∃ s' c, processCertificationRequest id iss e s = Done tt s'
               ∧ (∀ cid, cid ∈ certificateIdsAssigned s → cid < m + 1)
               ∧ certificates s !! (m + 1) = None
               ∧ certificates s' !! (m + 1) = Some c
               ∧ Certificate.holder c
                 = CertificationRequest.applicant (mread (certificationRequests s) id)
               ∧ events s'
                 = (events s ++
                    [CertificateIssued (m + 1) (Certificate.holder c)
                       (Certificate.profession c);
                     CertificationApproved id (m + 1)])%list
               ∧ certificateIdsAssigned s' = (certificateIdsAssigned s ++ [m + 1])%list).
Proof.
  intros Hs n m. pose proof (reachable_consistent s Hs) as Hc.
  pose proof (requestIds_log s Hc) as Hr.
  pose proof (certificateIds_log s Hc) as Hcs.
  assert (nextRequestId s = n + 1) as Hn by (by destruct Hr as [_ <-]).
  assert (nextCertificateId s = m + 1) as Hm by (by destruct Hcs as [_ <-]).
  split.
  { intros e0. destruct (deploy_fields e0) as (_ & _ & _ & _ & _ & _ & _ & Hev).
    unfold requestIdsAssigned, certificateIdsAssigned. by rewrite Hev. }
  split; [exact (proj1 Hr) |]. split; [exact (proj1 Hcs) |].
  split; [intros i j a b; by apply countsFromOne_increasing with (n := nextRequestId s) |].
  split; [intros i j a b; by apply countsFromOne_increasing with (n := nextCertificateId s) |].
  split.
  - intros e p sc lv ev Hsc Hlv Hp Hev Hroom.
    exists (request_post p sc lv ev e s). split.
    { rewrite requestCertification_run.
      rewrite (proj2 (N.leb_le _ _) Hsc), (proj2 (N.leb_le _ _) Hlv).
      rewrite (proj2 (Nat.ltb_lt _ _) Hp), (proj2 (Nat.ltb_lt _ _) Hev).
      replace (nextRequestId s + 1 <=? MAX_UINT256) with true; [done |].
      symmetry. apply N.leb_le. rewrite Hn. unfold MAX_UINT256 in *. lia. }
    split; [intros id; by apply countsFromOne_below with (nextRequestId s) |].
    rewrite <- Hn. unfold requestIdsAssigned. post_simpl.
    split; [apply eq_None_not_Some; rewrite (requests_dom s Hc); lia |].
    split; [by rewrite lookup_insert_eq |].
    split; [done |]. by rewrite omap_app.
  - intros e id iss Hwho Hid Hp Ht.
    destruct (proj1 (processCertificationRequest_completes s e id iss Hs Hwho Hid Hp)
                (timestamp_leaves_room _ Ht))
      as (s' & Hrun & _ & _ & Hfresh & Hstored & _ & _ & Hev).
    rewrite Hm in Hfresh, Hstored, Hev.
    eexists s', _. split; [exact Hrun |].
    split; [intros cid; by apply countsFromOne_below with (nextCertificateId s) |].
    split; [exact Hfresh |]. split; [exact Hstored |].
    split; [reflexivity |]. split; [exact Hev |].
    unfold certificateIdsAssigned. rewrite Hev, omap_app. reflexivity.
Qed.

(** ** Expiry *)

Lemma isAuthorizedIssuer_true e s :
  isAuthorizedIssuer e s = true ↔
  (mread (authorizedIssuers s) (sender e) = true ∨ sender e = owner s).
Proof. unfold isAuthorizedIssuer. by rewrite orb_true_iff, N.eqb_eq. Qed.

(** C8, as the code has it.  When an authorized issuer or the owner calls
    [extendCertificateValidity] on a certificate that passes the
    valid-and-unexpired guard: if the old expiry plus
    [additionalDays * 86400] fits in a [uint256], the call completes and the
    new expiry is exactly that sum; if it does not fit, the call aborts
    with an arithmetic panic and the expiry stays as it was.  No other
    bound is placed on [additionalDays].  A certificate issued by a
    completed [processCertificationRequest] has its issue date equal to the
    current time and its expiry equal to the issue date plus 365 days. *)
Theorem extendCertificateValidity_expiry s e :
  (∀ id days,
     isAuthorizedIssuer e s = true →
     isValidUnexpired id e s = true →
     let old := Certificate.expiryDate (mread (certificates s) id) in
     (old + days * 86400 ≤ MAX_UINT256 →
        ∃ s', extendCertificateValidity id days e s = Done tt s'
              ∧ Certificate.expiryDate (mread (certificates s') id) = old + days * 86400)
     ∧ (MAX_UINT256 < old + days * 86400 →
        extendCertificateValidity id days e s = Fail (Panic 17)
        ∧ Certificate.expiryDate
            (mread (certificates (transact e (ExtendCertificateValidity id days) s)) id)
          = old))
  ∧ (∀ id iss s',
       processCertificationRequest id iss e s = Done tt s' →
       let c := mread (certificates s') (nextCertificateId s) in
       Certificate.issueDate c = timestamp e
       ∧ Certificate.expiryDate c = Certificate.issueDate c + 365 * 86400).
Proof.
  split.
  - intros id days Hauth Hvalid old.
    pose proof (validCertificate_Done _ _ _ Hvalid) as Hguard.
    split.
    + intros Hfit. exists (extend_post id days s). split.
      * rewrite extendCertificateValidity_run, Hauth, Hguard.
        fold old. change ONE_DAY with 86400.
        replace (days * 86400 <=? MAX_UINT256) with true
          by (symmetry; apply N.leb_le; lia).
        by rewrite (proj2 (N.leb_le _ _) Hfit).
      * post_simpl. by rewrite mread_insert_eq.
    + intros Hover.
      assert (extendCertificateValidity id days e s = Fail (Panic 17)) as Hrun.
      { rewrite extendCertificateValidity_run, Hauth, Hguard.
        fold old. change ONE_DAY with 86400.
        destruct (days * 86400 <=? MAX_UINT256); [| done].
        by rewrite (proj2 (N.leb_gt _ _) Hover). }
      split; [done |].
      unfold transact. cbn [dispatch].
      by rewrite (commit_abi_decode_Fail _ _ e s (Panic 17) Hrun).
  - intros id iss s' (_ & _ & _ & _ & ->)%processCertificationRequest_Done c.
    subst c. post_simpl. by rewrite mread_insert_eq.
Qed.

(** ** Further properties of the contract *)

(** *** Induction along transactions from a reachable state *)

Lemma steps_reachable s s' : reachable s → steps s s' → reachable s'.
Proof.
  intros Hs Hsteps. induction Hsteps; [done |]. by apply reachable_transact.
Qed.

Lemma steps_invariant (P : State → Prop) s s' :
  reachable s → steps s s' → P s →
  (∀ e s1 s2, consistent s1 → effect e s1 s2 → P s1 → P s2) →
  P s'.
Proof.
  intros Hs Hsteps HP Hstep.
  induction Hsteps as [| s' e c Hsteps IH]; [done |].
  apply (Hstep e s' _); [| apply transact_effect | done].
  by apply reachable_consistent, (steps_reachable s).
Qed.

Lemma reachable_invariant (P : State → Prop) s :
  reachable s →
  (∀ e, P (deploy e)) →
  (∀ e s1 s2, consistent s1 → effect e s1 s2 → P s1 → P s2) →
  P s.
Proof.
  intros Hs Hinit Hstep.
  induction Hs as [e | s e c Hs IH]; [done |].
  apply (Hstep e s _); [by apply reachable_consistent | apply transact_effect | done].
Qed.

(** *** The owner and the issuers *)

Lemma effect_owner e s s' : effect e s s' → owner s' = owner s.
Proof. by destruct 1. Qed.

(** X1.  The owner is fixed at deployment: after any sequence of
    transactions from the deployed state, the owner is still the account
    that deployed the contract. *)
Theorem owner_is_the_deployer e s :
  steps (deploy e) s → owner s = sender e.
Proof.
  induction 1 as [| s e' c _ IH]; [reflexivity |].
  by rewrite (effect_owner _ _ _ (transact_effect e' c s)).
Qed.

Lemma isOwner_true e s : sender e = owner s → isOwner e s = true.
Proof. intros. unfold isOwner. by apply N.eqb_eq. Qed.

(** X2.  When the owner calls [authorizeIssuer], the call completes.  In
    the state the call leaves, the named account is flagged and passes the
    issuer guard (a later [revokeIssuer] takes this away again); the flags
    of all other accounts, the owner, the counters, the requests, the
    certificates and the requirements are as before the call; the one
    event emitted is [IssuerAuthorized]. *)
Theorem authorizeIssuer_grants e s i o :
  sender e = owner s →
  ∃ s', authorizeIssuer i o e s = Done tt s'
    ∧ mread (authorizedIssuers s') i = true
    ∧ (∀ e', sender e' = i → onlyAuthorizedIssuer e' s' = Done tt s')
    ∧ (∀ a, a ≠ i → mread (authorizedIssuers s') a = mread (authorizedIssuers s) a)
    ∧ owner s' = owner s
    ∧ nextRequestId s' = nextRequestId s
    ∧ nextCertificateId s' = nextCertificateId s
    ∧ certificationRequests s' = certificationRequests s
    ∧ certificates s' = certificates s
    ∧ holderCertificates s' = holderCertificates s
    ∧ minimumScoreRequirement s' = minimumScoreRequirement s
    ∧ minimumLevelRequirement s' = minimumLevelRequirement s
    ∧ events s' = (events s ++ [IssuerAuthorized i o])%list.
Proof.
  intros Hown%isOwner_true. eexists. split.
  { rewrite authorizeIssuer_run, Hown. reflexivity. }
  st_simpl. rewrite mread_insert_eq. repeat split.
  - intros e' He'. rewrite onlyAuthorizedIssuer_run. unfold isAuthorizedIssuer.
    st_simpl. by rewrite He', mread_insert_eq.
  - intros a Ha. by rewrite mread_insert_ne.
Qed.

(** X3.  When the owner calls [revokeIssuer], the call completes and the
    named account's flag is cleared.  If that account is not the owner it
    no longer passes the issuer guard; the owner passes the guard whatever
    its own flag says, so revoking the owner takes nothing away from it.
    The flags of all other accounts are as before and the one event
    emitted is [IssuerRevoked]. *)
Theorem revokeIssuer_withdraws e s i :
  sender e = owner s →
  ∃ s', revokeIssuer i e s = Done tt s'
    ∧ mread (authorizedIssuers s') i = false
    ∧ (∀ e', sender e' = i → i ≠ owner s →
         onlyAuthorizedIssuer e' s' = Fail (Revert "Not authorized issuer"))
    ∧ (∀ e', sender e' = owner s → onlyAuthorizedIssuer e' s' = Done tt s')
    ∧ (∀ a, a ≠ i → mread (authorizedIssuers s') a = mread (authorizedIssuers s) a)
    ∧ owner s' = owner s
    ∧ certificationRequests s' = certificationRequests s
    ∧ certificates s' = certificates s
    ∧ events s' = (events s ++ [IssuerRevoked i])%list.
Proof.
  intros Hown%isOwner_true. eexists. split.
  { rewrite revokeIssuer_run, Hown. reflexivity. }
  st_simpl. rewrite mread_insert_eq. repeat split.
  - intros e' He' Hne. rewrite onlyAuthorizedIssuer_run. unfold isAuthorizedIssuer.
    st_simpl. rewrite He', mread_insert_eq.
    by rewrite (proj2 (N.eqb_neq _ _) Hne).
  - intros e' He'. rewrite onlyAuthorizedIssuer_run. unfold isAuthorizedIssuer.
    st_simpl. by rewrite He', N.eqb_refl, orb_true_r.
  - intros a Ha. by rewrite mread_insert_ne.
Qed.

(** *** Profession requirements *)

Lemma mread_Forall {V : Type} `{SolZero V} (P : V → Prop) (m : gmap string V) q :
  P sol_zero → map_Forall (λ _ v, P v) m → P (mread m q).
Proof.
  intros H0 Hm. unfold mread. destruct (m !! q) as [v |] eqn:Hl; [| done].
  exact (Hm q v Hl).
Qed.

Lemma reachable_requirementsFit s : reachable s → requirementsFit s.
Proof.
  intros Hs. pattern s. apply reachable_invariant; [done | |]; clear s Hs.
  - intros e.
    assert (minimumScoreRequirement (deploy e)
            = <["Project Manager" := 70]> (<["Cybersecurity Specialist" := 85]>
                (<["Data Scientist" := 80]> (<["Software Engineer" := 75]>
                  (∅ : gmap string N))))) as Hsc by reflexivity.
    assert (minimumLevelRequirement (deploy e)
            = <["Project Manager" := 3]> (<["Cybersecurity Specialist" := 4]>
                (<["Data Scientist" := 4]> (<["Software Engineer" := 3]>
                  (∅ : gmap string N))))) as Hlv by reflexivity.
    unfold requirementsFit. rewrite Hsc, Hlv.
    split; repeat (apply map_Forall_insert_2; [vm_compute; reflexivity |]);
      apply map_Forall_empty.
  - intros e s1 s2 _ Heff [Hsc Hlv].
    destruct Heff as [ | | p sc lv Hs Hl | | | | ]; try done.
    split; st_simpl; by apply map_Forall_insert_2.
Qed.

(** X4.  [setProfessionRequirements] takes a [uint256] score and a [uint8]
    level.  When the owner calls it with values of these widths, the call
    completes and [getProfessionRequirements], asked in the state the call
    leaves, returns the two values just written for that profession and
    the previous values for every other profession; nothing else in the
    state changes and no event is emitted.  With a level of 256 or more,
    or a score of [2^256] or more, the call data cannot be decoded: the
    call reverts, whoever the caller is, and the transaction leaves the
    state as it was.  Hence in
    every reachable state the two values [getProfessionRequirements]
    returns fit a [uint256] and a [uint8]. *)
Theorem setProfessionRequirements_then_get e s p sc lv :
  (sender e = owner s → sc < 2 ^ 256 → lv < 2 ^ 8 →
   ∃ s', setProfessionRequirements p sc lv e s = Done tt s'
     ∧ dispatch (SetProfessionRequirements p sc lv) e s = Done tt s'
     ∧ transact e (SetProfessionRequirements p sc lv) s = s'
     ∧ (∀ e', getProfessionRequirements p e' s' = Done (sc, lv) s')
     ∧ (∀ e' q r, q ≠ p → getProfessionRequirements q e' s = Done r s →
          getProfessionRequirements q e' s' = Done r s')
     ∧ owner s' = owner s
     ∧ authorizedIssuers s' = authorizedIssuers s
     ∧ nextRequestId s' = nextRequestId s
     ∧ nextCertificateId s' = nextCertificateId s
     ∧ certificationRequests s' = certificationRequests s
     ∧ certificates s' = certificates s
     ∧ holderCertificates s' = holderCertificates s
     ∧ acl s' = acl s
     ∧ events s' = events s)
  ∧ (2 ^ 256 ≤ sc ∨ 2 ^ 8 ≤ lv →
     dispatch (SetProfessionRequirements p sc lv) e s = Fail (Revert EmptyString)
     ∧ transact e (SetProfessionRequirements p sc lv) s = s)
  ∧ (reachable s →
     ∀ q e', ∃ a b, getProfessionRequirements q e' s = Done (a, b) s
                    ∧ a < 2 ^ 256 ∧ b < 2 ^ 8).
Proof.
  split; [| split].
  - intros Hown%isOwner_true Hsc Hlv.
    assert (fits 256 sc && fits 8 lv = true) as Hok
      by (apply andb_true_intro; split; by apply N.ltb_lt).
    assert (setProfessionRequirements p sc lv e s
            = Done tt (set_minimumLevelRequirement (<[p := lv]> (minimumLevelRequirement s))
                         (set_minimumScoreRequirement
                            (<[p := sc]> (minimumScoreRequirement s)) s))) as Hrun
      by (by rewrite setProfessionRequirements_run, Hown).
    eexists. split; [exact Hrun |].
    split; [cbn [dispatch]; unfold abi_decode; by rewrite Hok |].
    split; [unfold transact; cbn [dispatch];
            exact (commit_abi_decode_Done _ _ e s tt _ Hok Hrun) |].
    split.
    { intros e'. unfold getProfessionRequirements, get. st_simpl.
      by rewrite !mread_insert_eq. }
    split.
    { intros e' q r Hq. unfold getProfessionRequirements, get. st_simpl.
      rewrite !mread_insert_ne by done. by intros [= <-]. }
    st_simpl. repeat split; reflexivity.
  - intros Hbig.
    assert (fits 256 sc && fits 8 lv = false) as Hok.
    { apply andb_false_iff. unfold fits.
      destruct Hbig; [left | right]; by apply N.ltb_ge. }
    split.
    + cbn [dispatch]. unfold abi_decode. by rewrite Hok.
    + unfold transact. cbn [dispatch]. by rewrite commit_abi_decode, Hok.
  - intros [Hsc Hlv]%reachable_requirementsFit q e'.
    exists (mread (minimumScoreRequirement s) q), (mread (minimumLevelRequirement s) q).
    split; [reflexivity |].
    split; by apply mread_Forall.
Qed.

(** X5.  Right after deployment the owner is the deployer, both counts
    are 0, no account is flagged as issuer, no event has been emitted, and
    [getProfessionRequirements] returns the constructor's values for the
    four seeded professions and (0, 0) for every other name. *)
Theorem deploy_initial_state e :
  owner (deploy e) = sender e
  ∧ (∀ e', getCertificateCount e' (deploy e) = Done 0 (deploy e))
  ∧ (∀ e', getRequestCount e' (deploy e) = Done 0 (deploy e))
  ∧ (∀ a, mread (authorizedIssuers (deploy e)) a = false)
  ∧ (∀ h e', getHolderCertificates h e' (deploy e) = Done [] (deploy e))
  ∧ events (deploy e) = []
  ∧ (∀ p e', getProfessionRequirements p e' (deploy e)
             = Done (initialRequirements p) (deploy e)).
Proof.
  destruct (deploy_fields e) as (Ho & Hc & Hr & Hcs & Hrs & Hh & Hi & Hev).
  assert (minimumScoreRequirement (deploy e)
          = <["Project Manager" := 70]> (<["Cybersecurity Specialist" := 85]>
              (<["Data Scientist" := 80]> (<["Software Engineer" := 75]>
                (∅ : gmap string N))))) as Hsc by reflexivity.
  assert (minimumLevelRequirement (deploy e)
          = <["Project Manager" := 3]> (<["Cybersecurity Specialist" := 4]>
              (<["Data Scientist" := 4]> (<["Software Engineer" := 3]>
                (∅ : gmap string N))))) as Hlv by reflexivity.
  split; [exact Ho |].
  split; [intros e'; by rewrite getCertificateCount_run, Hc |].
  split; [intros e'; by rewrite getRequestCount_run, Hr |].
  split; [intros a; unfold mread; by rewrite Hi, lookup_empty |].
  split; [intros h e'; unfold getHolderCertificates, get, mread;
          by rewrite Hh, lookup_empty |].
  split; [exact Hev |].
  intros p e'. unfold getProfessionRequirements, get, initialRequirements, mread.
  rewrite Hsc, Hlv, !lookup_insert, !lookup_empty. f_equal.
  repeat case_decide; subst; reflexivity || congruence.
Qed.

(** *** Counts *)

Lemma stored_counts s :
  reachable s →
  N.of_nat (size (certificates s)) + 1 = nextCertificateId s
  ∧ N.of_nat (size (certificationRequests s)) + 1 = nextRequestId s.
Proof.
  intros Hs. pattern s. apply reachable_invariant; [done | |]; clear s Hs.
  - intros e. destruct (deploy_fields e) as (_ & -> & -> & -> & -> & _).
    by rewrite !map_size_empty.
  - intros e s1 s2 Hc Heff [Hcs Hrs].
    destruct Heff as [ | | | p sc lv ev Hb | id iss Hpend Hts Hb
                      | id reason Hval | id days Hval ]; post_simpl; try done.
    + split; [done |].
      rewrite map_size_insert_None; [lia |].
      apply eq_None_not_Some. rewrite (requests_dom s1 Hc). lia.
    + destruct (pending_lookup _ _ Hc Hpend) as (r & Hr & _).
      pose proof (countsFromOne_pos _ _ (certificateIds_log s1 Hc)) as Hpos.
      assert (certificates s1 !! nextCertificateId s1 = None) as Hfresh
        by (apply eq_None_not_Some; rewrite (certificates_dom s1 Hc); lia).
      rewrite (map_size_insert_None _ _ _ Hfresh).
      rewrite map_size_insert_Some by eauto. lia.
    + destruct (valid_lookup _ _ _ Hc Hval) as (c & Hl & _).
      by rewrite map_size_insert_Some by eauto.
    + destruct (valid_lookup _ _ _ Hc Hval) as (c & Hl & _).
      by rewrite map_size_insert_Some by eauto.
Qed.

(** X6.  In every reachable state [getCertificateCount] and
    [getRequestCount] return (their subtraction cannot underflow), and they
    return the number of certificates and the number of requests in
    storage.  The certificate count plus the number of pending requests is
    the request count, so there are never more certificates than
    requests. *)
Theorem counts_match_storage s e :
  reachable s →
  getCertificateCount e s = Done (N.of_nat (size (certificates s))) s
  ∧ getRequestCount e s = Done (N.of_nat (size (certificationRequests s))) s
  ∧ N.of_nat (size (certificates s)) + N.of_nat (pendingCount s)
    = N.of_nat (size (certificationRequests s)).
Proof.
  intros Hs. destruct (stored_counts s Hs) as [Hcs Hrs].
  pose proof (one_certificate_per_processed s (reachable_consistent s Hs)) as Hone.
  rewrite getCertificateCount_run, getRequestCount_run, <- Hcs, <- Hrs.
  replace (1 <=? N.of_nat (size (certificates s)) + 1) with true
    by (symmetry; apply N.leb_le; lia).
  replace (1 <=? N.of_nat (size (certificationRequests s)) + 1) with true
    by (symmetry; apply N.leb_le; lia).
  rewrite !N.add_sub. repeat split. lia.
Qed.

(** *** Holder lists *)

Lemma increasing_snoc l n :
  increasing l → (∀ x, x ∈ l → x < n) → increasing (l ++ [n])%list.
Proof.
  intros Hl Hn i j a b Hij Ha Hb.
  apply lookup_snoc_Some in Ha as [[Hi Ha] | [-> <-]];
    apply lookup_snoc_Some in Hb as [[Hj Hb] | [-> <-]].
  - by apply (Hl i j).
  - apply Hn. by apply list_elem_of_lookup_2 with i.
  - lia.
  - lia.
Qed.

Lemma increasing_nil : increasing [].
Proof. by intros i j a b _ Ha. Qed.

Lemma holdersAgree_update s id (f : Certificate.t → Certificate.t) c :
  certificates s !! id = Some c →
  Certificate.holder (f c) = Certificate.holder c →
  holdersAgree s →
  holdersAgree
    (set_certificates (<[id := f (mread (certificates s) id)]> (certificates s)) s).
Proof.
  intros Hl Hf [Hin Hinc]. split; st_simpl; [| done].
  intros h id'. rewrite Hin. rewrite (mread_Some _ _ _ Hl).
  destruct (decide (id = id')) as [<- | Hne].
  - rewrite lookup_insert_eq, Hl. split.
    + intros (c' & [= <-] & Hh). exists (f c). by rewrite Hf.
    + intros (c' & [= <-] & Hh). exists c. by rewrite <- Hf.
  - by rewrite lookup_insert_ne.
Qed.

Lemma reachable_holdersAgree s : reachable s → holdersAgree s.
Proof.
  intros Hs. pattern s. apply reachable_invariant; [done | |]; clear s Hs.
  - intros e. destruct (deploy_fields e) as (_ & _ & _ & Hcs & _ & Hh & _).
    split.
    + intros h id. unfold mread. rewrite Hh, Hcs, !lookup_empty. cbn.
      rewrite elem_of_nil. split; [done | by intros (c & ? & _)].
    + intros h. unfold mread. rewrite Hh, lookup_empty. apply increasing_nil.
  - intros e s1 s2 Hc Heff Hag.
    destruct Heff as [ | | | p sc lv ev Hb | id iss Hpend Hts Hb
                      | id reason Hval | id days Hval ]; try done.
    + pose proof (countsFromOne_pos _ _ (certificateIds_log s1 Hc)) as Hpos.
      assert (certificates s1 !! nextCertificateId s1 = None) as Hfresh
        by (apply eq_None_not_Some; rewrite (certificates_dom s1 Hc); lia).
      destruct Hag as [Hin Hinc].
      assert (∀ h x, x ∈ mread (holderCertificates s1) h → x < nextCertificateId s1)
        as Hbelow.
      { intros h x (c & Hx & _)%Hin.
        apply (certificates_dom s1 Hc). eauto. }
      set (a := CertificationRequest.applicant (mread (certificationRequests s1) id)).
      split; post_simpl; fold a.
      * intros h id'.
        destruct (decide (a = h)) as [<- | Hha].
        -- rewrite mread_insert_eq, elem_of_app, list_elem_of_singleton, Hin.
           destruct (decide (nextCertificateId s1 = id')) as [<- | Hne].
           ++ rewrite lookup_insert_eq. split; [eauto | by right].
           ++ rewrite lookup_insert_ne by done. split; [| by left].
              intros [? | ?]; [done | congruence].
        -- rewrite mread_insert_ne by done. rewrite Hin.
           destruct (decide (nextCertificateId s1 = id')) as [<- | Hne].
           ++ rewrite lookup_insert_eq, Hfresh. split.
              ** by intros (c & ? & _).
              ** intros (c & [= <-] & Hh). done.
           ++ by rewrite lookup_insert_ne.
      * intros h. destruct (decide (a = h)) as [<- | Hha].
        -- rewrite mread_insert_eq. apply increasing_snoc; [apply Hinc | apply Hbelow].
        -- rewrite mread_insert_ne by done. apply Hinc.
    + destruct (valid_lookup _ _ _ Hc Hval) as (c & Hl & _).
      by apply (holdersAgree_update s1 id (Certificate.set_isValid false) c).
    + destruct (valid_lookup _ _ _ Hc Hval) as (c & Hl & _).
      by apply (holdersAgree_update s1 id (Certificate.set_expiryDate _) c).
Qed.

(** X7.  In every reachable state [getHolderCertificates] returns, for any
    address, exactly the ids of the stored certificates whose holder is
    that address (revoked and expired ones included), each once, in
    strictly increasing order; it never reverts and leaves the state
    unchanged. *)
Theorem getHolderCertificates_lists_holdings s e h :
  reachable s →
  ∃ l, getHolderCertificates h e s = Done l s
    ∧ (∀ id, id ∈ l ↔ ∃ c, certificates s !! id = Some c ∧ Certificate.holder c = h)
    ∧ increasing l
    ∧ NoDup l.
Proof.
  intros [Hin Hinc]%reachable_holdersAgree.
  exists (mread (holderCertificates s) h).
  split; [reflexivity |]. split; [apply Hin |]. split; [apply Hinc |].
  apply NoDup_alt. intros i j x Hi Hj.
  destruct (Nat.lt_trichotomy i j) as [Hlt | [-> | Hlt]]; [| done |].
  - pose proof (Hinc h i j x x Hlt Hi Hj). lia.
  - pose proof (Hinc h j i x x Hlt Hj Hi). lia.
Qed.

(** *** Stored records are never deleted or overwritten *)

Lemma sameIdentity_refl c : sameIdentity c c.
Proof. by repeat split. Qed.

Lemma sameIdentity_trans c1 c2 c3 :
  sameIdentity c1 c2 → sameIdentity c2 c3 → sameIdentity c1 c3.
Proof.
  unfold sameIdentity. intros (?&?&?&?&?&?&?) (?&?&?&?&?&?&?).
  repeat split; congruence.
Qed.

Lemma sameSubmission_refl r : sameSubmission r r.
Proof. by repeat split. Qed.

Lemma sameSubmission_trans r1 r2 r3 :
  sameSubmission r1 r2 → sameSubmission r2 r3 → sameSubmission r1 r3.
Proof.
  unfold sameSubmission. intros (?&?&?&?&?&?) (?&?&?&?&?&?).
  repeat split; congruence.
Qed.

Lemma effect_certificate e s1 s2 id c :
  consistent s1 → effect e s1 s2 →
  certificates s1 !! id = Some c →
  ∃ c', certificates s2 !! id = Some c'
        ∧ sameIdentity c c'
        ∧ Certificate.expiryDate c ≤ Certificate.expiryDate c'.
Proof.
  intros Hc Heff Hl.
  assert (∃ c', certificates s1 !! id = Some c' ∧ sameIdentity c c'
                ∧ Certificate.expiryDate c ≤ Certificate.expiryDate c') as Hsame
    by (exists c; split; [done | split; [apply sameIdentity_refl | lia]]).
  assert (id < nextCertificateId s1) as Hid
    by (apply (certificates_dom s1 Hc); eauto).
  destruct Heff as [ | | | p sc lv ev Hb | id0 iss Hpend Hts Hb
                    | id0 reason Hval | id0 days Hval ]; post_simpl; try done.
  - rewrite lookup_insert_ne by lia. done.
  - destruct (decide (id0 = id)) as [-> | Hne]; [| by rewrite lookup_insert_ne].
    rewrite lookup_insert_eq, (mread_Some _ _ _ Hl). eexists. split; [done |].
    split; [by repeat split | cbn; lia].
  - destruct (decide (id0 = id)) as [-> | Hne]; [| by rewrite lookup_insert_ne].
    rewrite lookup_insert_eq, (mread_Some _ _ _ Hl). eexists. split; [done |].
    split; [by repeat split | cbn; lia].
Qed.

(** X8.  A stored certificate is never deleted or overwritten.  After any
    sequence of transactions from a reachable state a certificate is still
    stored under the same id with the same holder, profession, encrypted
    handles, issue date, issuer and credential hash, and its expiry date
    is the old one or a later one. *)
Theorem certificate_identity_is_permanent s s' id c :
  reachable s → steps s s' →
  certificates s !! id = Some c →
  ∃ c', certificates s' !! id = Some c'
        ∧ sameIdentity c c'
        ∧ Certificate.expiryDate c ≤ Certificate.expiryDate c'.
Proof.
  intros Hs Hsteps Hl.
  apply (steps_invariant
           (λ s', ∃ c', certificates s' !! id = Some c' ∧ sameIdentity c c'
                        ∧ Certificate.expiryDate c ≤ Certificate.expiryDate c')
           s s' Hs Hsteps).
  - exists c. split; [done |]. split; [apply sameIdentity_refl | lia].
  - intros e s1 s2 Hc Heff (c1 & Hl1 & Hid1 & Hexp1).
    destruct (effect_certificate e s1 s2 id c1 Hc Heff Hl1) as (c2 & Hl2 & Hid2 & Hexp2).
    exists c2. split; [done |].
    split; [by apply sameIdentity_trans with c1 | lia].
Qed.

Lemma effect_request_record e s1 s2 id r :
  consistent s1 → effect e s1 s2 →
  certificationRequests s1 !! id = Some r →
  ∃ r', certificationRequests s2 !! id = Some r'
        ∧ sameSubmission r r'
        ∧ (CertificationRequest.isProcessed r = true → r' = r).
Proof.
  intros Hc Heff Hl.
  assert (∃ r', certificationRequests s1 !! id = Some r' ∧ sameSubmission r r'
                ∧ (CertificationRequest.isProcessed r = true → r' = r)) as Hsame
    by (exists r; split; [done | split; [apply sameSubmission_refl | done]]).
  assert (id < nextRequestId s1) as Hid
    by (apply (requests_dom s1 Hc); eauto).
  destruct Heff as [ | | | p sc lv ev Hb | id0 iss Hpend Hts Hb
                    | id0 reason Hval | id0 days Hval ]; post_simpl; try done.
  - rewrite lookup_insert_ne by lia. done.
  - destruct (decide (id0 = id)) as [-> | Hne]; [| by rewrite lookup_insert_ne].
    apply isPendingRequest_true in Hpend as [_ Hp].
    rewrite (mread_Some _ _ _ Hl) in Hp.
    rewrite lookup_insert_eq, (mread_Some _ _ _ Hl). eexists. split; [done |].
    split; [by repeat split | congruence].
Qed.

Lemma steps_request_record s s' id r :
  reachable s → steps s s' →
  certificationRequests s !! id = Some r →
  ∃ r', certificationRequests s' !! id = Some r'
        ∧ sameSubmission r r'
        ∧ (CertificationRequest.isProcessed r = true → r' = r).
Proof.
  intros Hs Hsteps Hl.
  apply (steps_invariant
           (λ s', ∃ r', certificationRequests s' !! id = Some r' ∧ sameSubmission r r'
                        ∧ (CertificationRequest.isProcessed r = true → r' = r))
           s s' Hs Hsteps).
  - exists r. split; [done |]. split; [apply sameSubmission_refl | done].
  - intros e s1 s2 Hc Heff (r1 & Hl1 & Hsub1 & Hp1).
    destruct (effect_request_record e s1 s2 id r1 Hc Heff Hl1) as (r2 & Hl2 & Hsub2 & Hp2).
    exists r2. split; [done |].
    split; [by apply sameSubmission_trans with r1 |].
    intros Hp. specialize (Hp1 Hp). subst r1. by apply Hp2.
Qed.

(** X9.  A stored request is never deleted, and what was submitted never
    changes.  After any sequence of transactions from a reachable state a
    request is still stored under the same id with the same applicant,
    profession, encrypted handles, submission time and evidence; a request
    that was already processed is unchanged altogether. *)
Theorem request_record_is_permanent s s' id r :
  reachable s → steps s s' →
  certificationRequests s !! id = Some r →
  ∃ r', certificationRequests s' !! id = Some r'
        ∧ sameSubmission r r'
        ∧ (CertificationRequest.isProcessed r = true → r' = r).
Proof. apply steps_request_record. Qed.

(** *** Rejection never happens *)

Lemma transact_emits_no_rejection e c s :
  ∃ l, events (transact e c s) = (events s ++ l)%list
       ∧ Forall (λ ev, isRejection ev = false) l.
Proof.
  assert (∃ l, events s = (events s ++ l)%list
               ∧ Forall (λ ev, isRejection ev = false) l) as Hnone
    by (exists []; split; [by rewrite app_nil_r | constructor]).
  unfold transact.
  destruct c; cbn [dispatch];
    try (apply (abi_decode_cases
                  (λ s', ∃ l, events s' = (events s ++ l)%list
                              ∧ Forall (λ ev, isRejection ev = false) l));
         [exact Hnone |]);
    try (rewrite commit_discard_readonly;
         [ exact Hnone
         | auto using verifyCertificate_readonly, getHolderCertificates_readonly,
             getCertificateCount_readonly, getRequestCount_readonly,
             getProfessionRequirements_readonly, getEncryptedScore_readonly,
             getEncryptedLevel_readonly ]);
    unfold commit.
  - rewrite authorizeIssuer_run. guard_split; [| exact Hnone].
    st_simpl. eexists. split; [done |]. by repeat constructor.
  - rewrite revokeIssuer_run. guard_split; [| exact Hnone].
    st_simpl. eexists. split; [done |]. by repeat constructor.
  - rewrite setProfessionRequirements_run. guard_split; exact Hnone.
  - rewrite requestCertification_run.
    do 5 (guard_split; [| exact Hnone]).
    post_simpl. eexists. split; [done |]. by repeat constructor.
  - rewrite processCertificationRequest_run.
    do 5 (guard_split; [| exact Hnone]).
    post_simpl. rewrite <- app_assoc. eexists. split; [done |]. by repeat constructor.
  - rewrite revokeCertificate_run, validCertificate_run.
    do 4 (guard_split; [| exact Hnone]).
    post_simpl. eexists. split; [done |]. by repeat constructor.
  - rewrite extendCertificateValidity_run, validCertificate_run.
    do 6 (guard_split; [| exact Hnone]).
    exact Hnone.
  - rewrite emergencyPause_run. guard_split; exact Hnone.
Qed.

Lemma approved_when_processed s :
  reachable s →
  ∀ id, CertificationRequest.isApproved (mread (certificationRequests s) id)
        = CertificationRequest.isProcessed (mread (certificationRequests s) id).
Proof.
  intros Hs. pattern s. apply reachable_invariant; [done | |]; clear s Hs.
  - intros e. destruct (deploy_fields e) as (_ & _ & _ & _ & Hrs & _).
    rewrite Hrs. intros id. unfold mread. by rewrite lookup_empty.
  - intros e s1 s2 Hc Heff Hflags.
    destruct Heff as [ | | | p sc lv ev Hb | id0 iss Hpend Hts Hb
                      | id0 reason Hval | id0 days Hval ]; post_simpl; try done.
    + intros id. destruct (decide (nextRequestId s1 = id)) as [<- | Hne].
      * by rewrite mread_insert_eq.
      * by rewrite mread_insert_ne.
    + intros id. destruct (decide (id0 = id)) as [<- | Hne].
      * by rewrite mread_insert_eq.
      * by rewrite mread_insert_ne.
Qed.

Lemma log_has_no_rejection s :
  reachable s → Forall (λ ev, isRejection ev = false) (events s).
Proof.
  induction 1 as [e | s e c _ IH].
  - destruct (deploy_fields e) as (_ & _ & _ & _ & _ & _ & _ & ->). constructor.
  - destruct (transact_emits_no_rejection e c s) as (l & -> & Hl).
    apply Forall_app. by split.
Qed.

(** X10.  No request is ever rejected.  In every reachable state each
    request is approved exactly when it is processed, and the event log
    holds no [CertificationRejected]. *)
Theorem rejection_never_happens s :
  reachable s →
  (∀ id, CertificationRequest.isApproved (mread (certificationRequests s) id)
         = CertificationRequest.isProcessed (mread (certificationRequests s) id))
  ∧ (∀ id reason, CertificationRejected id reason ∉ events s).
Proof.
  intros Hs. split; [by apply approved_when_processed |].
  pose proof (log_has_no_rejection s Hs) as Hlog.
  intros id reason Hin.
  by pose proof (proj1 (Forall_forall _ _) Hlog _ Hin).
Qed.

Lemma effect_holder_list e s s' h :
  effect e s s' →
  mread (holderCertificates s) h `prefix_of` mread (holderCertificates s') h.
Proof.
  destruct 1 as [ | | | | id iss _ _ _ | | ]; post_simpl; try done.
  destruct (decide
              (CertificationRequest.applicant (mread (certificationRequests s) id) = h))
    as [<- | Hne].
  - rewrite mread_insert_eq. by apply prefix_app_r.
  - by rewrite mread_insert_ne.
Qed.

(** X11.  A holder's list only grows at its end: after any sequence of
    transactions the list [getHolderCertificates] returned before is a
    prefix of the list it returns now.  Revoking a certificate or letting
    it expire removes nothing from the list. *)
Theorem holder_list_only_grows s s' h e e' :
  steps s s' →
  ∃ l l', getHolderCertificates h e s = Done l s
          ∧ getHolderCertificates h e' s' = Done l' s'
          ∧ l `prefix_of` l'.
Proof.
  intros Hsteps. eexists _, _. split; [reflexivity |]. split; [reflexivity |].
  induction Hsteps as [| s' e0 c _ IH]; [done |].
  etrans; [exact IH |]. apply (effect_holder_list e0), transact_effect.
Qed.

(** *** What a stored certificate looks like *)

Lemma reachable_wellIssued s :
  reachable s → ∀ id c, certificates s !! id = Some c → wellIssued id c.
Proof.
  intros Hs. pattern s. apply reachable_invariant; [done | |]; clear s Hs.
  - intros e. destruct (deploy_fields e) as (_ & _ & _ & Hcs & _).
    rewrite Hcs. intros id c. by rewrite lookup_empty.
  - intros e s1 s2 Hc Heff IH.
    destruct Heff as [ | | | p sc lv ev Hb | id0 iss Hpend Hts Hb
                      | id0 reason Hval | id0 days Hval ]; post_simpl; try done.
    + intros id c [[<- <-] | [Hne Hl]]%lookup_insert_Some; [| by apply IH].
      split; cbn; [lia | done].
    + destruct (valid_lookup _ _ _ Hc Hval) as (c0 & Hl0 & _).
      rewrite (mread_Some _ _ _ Hl0).
      intros id c [[<- <-] | [Hne Hl]]%lookup_insert_Some; [| by apply IH].
      apply (IH id0 c0 Hl0).
    + destruct (valid_lookup _ _ _ Hc Hval) as (c0 & Hl0 & _).
      rewrite (mread_Some _ _ _ Hl0).
      intros id c [[<- <-] | [Hne Hl]]%lookup_insert_Some; [| by apply IH].
      destruct (IH id0 c0 Hl0) as [Hyear Hhash].
      split; cbn; [lia | done].
Qed.

(** X12.  In every reachable state each stored certificate expires no
    earlier than 365 days after its issue date, and its credential hash is
    the digest of its own holder, profession, issue date and id, so the
    hash can be recomputed from what [verifyCertificate] returns. *)
Theorem certificates_are_well_issued s id c :
  reachable s → certificates s !! id = Some c →
  Certificate.issueDate c + 365 * 86400 ≤ Certificate.expiryDate c
  ∧ Certificate.hashedCredentials c
    = keccak256_packed (Certificate.holder c) (Certificate.profession c)
        (Certificate.issueDate c) id.
Proof. intros Hs Hl. exact (reachable_wellIssued s Hs id c Hl). Qed.

Lemma issuedFor_update r c (f : Certificate.t → Certificate.t) :
  Certificate.holder (f c) = Certificate.holder c →
  Certificate.profession (f c) = Certificate.profession c →
  Certificate.encryptedScore (f c) = Certificate.encryptedScore c →
  Certificate.encryptedLevel (f c) = Certificate.encryptedLevel c →
  issuedFor r c → issuedFor r (f c).
Proof.
  unfold issuedFor. intros -> -> -> ->. done.
Qed.

Lemma provenance_update s id c (f : Certificate.t → Certificate.t) :
  certificates s !! id = Some c →
  (∀ r, issuedFor r c → issuedFor r (f c)) →
  provenance s →
  provenance
    (set_certificates (<[id := f (mread (certificates s) id)]> (certificates s)) s).
Proof.
  intros Hl Hf [Hcert Hreq]. rewrite (mread_Some _ _ _ Hl). split; st_simpl.
  - intros id' c' [[<- <-] | [Hne Hl']]%lookup_insert_Some;
      [| exact (Hcert id' c' Hl')].
    destruct (Hcert id c Hl) as (rid & r & Hr & Hfor). eauto.
  - intros rid r Hr Hp. destruct (Hreq rid r Hr Hp) as (id' & c' & Hl' & Hfor).
    destruct (decide (id = id')) as [<- | Hne].
    + exists id, (f c). rewrite lookup_insert_eq. split; [done |].
      apply Hf. congruence.
    + exists id', c'. by rewrite lookup_insert_ne.
Qed.

Lemma reachable_provenance s : reachable s → provenance s.
Proof.
  intros Hs. pattern s. apply reachable_invariant; [done | |]; clear s Hs.
  - intros e. destruct (deploy_fields e) as (_ & _ & _ & Hcs & Hrs & _).
    split; rewrite ?Hcs, ?Hrs; intros ? ?; by rewrite lookup_empty.
  - intros e s1 s2 Hc Heff IH.
    destruct Heff as [ | | | p sc lv ev Hb | id0 iss Hpend Hts Hb
                      | id0 reason Hval | id0 days Hval ]; try done.
    + destruct IH as [Hcert Hreq].
      assert (certificationRequests s1 !! nextRequestId s1 = None) as Hfresh
        by (apply eq_None_not_Some; rewrite (requests_dom s1 Hc); lia).
      split; post_simpl.
      * intros id c Hl. destruct (Hcert id c Hl) as (rid & r & Hr & Hfor).
        exists rid, r. split; [| done].
        rewrite lookup_insert_ne; [done | congruence].
      * intros rid r [[<- <-] | [Hne Hr]]%lookup_insert_Some; [done |].
        exact (Hreq rid r Hr).
    + destruct IH as [Hcert Hreq].
      destruct (pending_lookup _ _ Hc Hpend) as (r0 & Hr0 & Hp0).
      pose proof (countsFromOne_pos _ _ (certificateIds_log s1 Hc)) as Hpos.
      assert (certificates s1 !! nextCertificateId s1 = None) as Hfresh
        by (apply eq_None_not_Some; rewrite (certificates_dom s1 Hc); lia).
      split; post_simpl; rewrite (mread_Some _ _ _ Hr0).
      * intros id c [[<- <-] | [Hne Hl]]%lookup_insert_Some.
        -- eexists id0, _. rewrite lookup_insert_eq. split; [done |].
           by repeat split.
        -- destruct (Hcert id c Hl) as (rid & r & Hr & Hfor).
           exists rid, r. split; [| done].
           rewrite lookup_insert_ne; [done |].
           intros <-. destruct Hfor as [Hfor _]. congruence.
      * intros rid r [[<- <-] | [Hne Hr]]%lookup_insert_Some Hp.
        -- eexists (nextCertificateId s1), _. rewrite lookup_insert_eq.
           split; [done |]. by repeat split.
        -- destruct (Hreq rid r Hr Hp) as (id & c & Hl & Hfor).
           exists id, c. split; [| done].
           rewrite lookup_insert_ne; [done | congruence].
    + destruct (valid_lookup _ _ _ Hc Hval) as (c0 & Hl0 & _).
      apply (provenance_update s1 id0 c0 (Certificate.set_isValid false) Hl0);
        [| done].
      intros r. by apply issuedFor_update.
    + destruct (valid_lookup _ _ _ Hc Hval) as (c0 & Hl0 & _).
      apply (provenance_update s1 id0 c0 (Certificate.set_expiryDate _) Hl0);
        [| done].
      intros r. by apply issuedFor_update.
Qed.

(** X13.  Certificates come from processed requests and from nothing
    else.  In every reachable state each stored certificate has a stored
    request that is processed and approved and has the certificate's
    holder as applicant, the same profession and the same two encrypted
    handles; and each processed request has such a certificate. *)
Theorem certificates_come_from_requests s :
  reachable s →
  (∀ id c, certificates s !! id = Some c →
           ∃ rid r, certificationRequests s !! rid = Some r ∧ issuedFor r c)
  ∧ (∀ rid r, certificationRequests s !! rid = Some r →
              CertificationRequest.isProcessed r = true →
              ∃ id c, certificates s !! id = Some c ∧ issuedFor r c).
Proof. intros Hs. exact (reachable_provenance s Hs). Qed.

(** *** Revoked and expired certificates *)

Lemma validCertificate_invalid id e s :
  1 ≤ id ≤ nextCertificateId s →
  Certificate.isValid (mread (certificates s) id) = false →
  validCertificate id e s = Fail (Revert "Certificate not valid").
Proof.
  intros Hid Hv. rewrite validCertificate_run. unfold inCertificateRange.
  replace ((0 <? id) && (id <=? nextCertificateId s)) with true
    by (symmetry; apply andb_true_intro; split;
        [apply N.ltb_lt | apply N.leb_le]; lia).
  by rewrite Hv.
Qed.

Lemma validCertificate_expired id e s :
  1 ≤ id ≤ nextCertificateId s →
  Certificate.isValid (mread (certificates s) id) = true →
  Certificate.expiryDate (mread (certificates s) id) ≤ timestamp e →
  validCertificate id e s = Fail (Revert "Certificate expired").
Proof.
  intros Hid Hv Hexp. rewrite validCertificate_run. unfold inCertificateRange.
  replace ((0 <? id) && (id <=? nextCertificateId s)) with true
    by (symmetry; apply andb_true_intro; split;
        [apply N.ltb_lt | apply N.leb_le]; lia).
  rewrite Hv.
  by replace (timestamp e <? Certificate.expiryDate (mread (certificates s) id))
    with false by (symmetry; apply N.ltb_ge; lia).
Qed.

Lemma guarded_calls_fail id e s f :
  validCertificate id e s = Fail f →
  verifyCertificate id e s = Fail f
  ∧ getEncryptedScore id e s = Fail f
  ∧ getEncryptedLevel id e s = Fail f
  ∧ (∀ reason, revokeCertificate id reason e s
               = Fail (if isAuthorizedIssuer e s then f
                       else Revert "Not authorized issuer"))
  ∧ (∀ days, extendCertificateValidity id days e s
             = Fail (if isAuthorizedIssuer e s then f
                     else Revert "Not authorized issuer")).
Proof.
  intros Hg.
  rewrite verifyCertificate_run, getEncryptedScore_run, getEncryptedLevel_run, Hg.
  repeat split.
  - intros reason. rewrite revokeCertificate_run, Hg. by destruct (isAuthorizedIssuer e s).
  - intros days. rewrite extendCertificateValidity_run, Hg.
    by destruct (isAuthorizedIssuer e s).
Qed.

(** X14.  When an authorized issuer or the owner revokes a valid,
    unexpired certificate in a reachable state, the call completes: the
    validity flag of that certificate becomes false and nothing else in
    the certificate changes; the other certificates, the owner, the issuer
    flags, the requests, the holder lists, the two counters, the
    profession requirements and the access list are as before; the one
    event emitted is [CertificateRevoked].  From then on, after any
    sequence of transactions, [verifyCertificate] and the two handle
    getters revert with "Certificate not valid" for every caller, and so
    do [revokeCertificate] and [extendCertificateValidity] for every
    authorized caller: a certificate is revoked at most once and a revoked
    certificate cannot be extended. *)
Theorem revoked_certificate_is_unusable s e id reason :
  reachable s →
  isAuthorizedIssuer e s = true →
  isValidUnexpired id e s = true →
  ∃ s' c,
    revokeCertificate id reason e s = Done tt s'
    ∧ certificates s !! id = Some c
    ∧ certificates s' = <[id := Certificate.set_isValid false c]> (certificates s)
    ∧ owner s' = owner s
    ∧ authorizedIssuers s' = authorizedIssuers s
    ∧ certificationRequests s' = certificationRequests s
    ∧ holderCertificates s' = holderCertificates s
    ∧ nextCertificateId s' = nextCertificateId s
    ∧ nextRequestId s' = nextRequestId s
    ∧ minimumScoreRequirement s' = minimumScoreRequirement s
    ∧ minimumLevelRequirement s' = minimumLevelRequirement s
    ∧ acl s' = acl s
    ∧ events s' = (events s ++ [CertificateRevoked id reason])%list
    ∧ ∀ s'' e', steps s' s'' →
        verifyCertificate id e' s'' = Fail (Revert "Certificate not valid")
        ∧ getEncryptedScore id e' s'' = Fail (Revert "Certificate not valid")
        ∧ getEncryptedLevel id e' s'' = Fail (Revert "Certificate not valid")
        ∧ (∀ reason', revokeCertificate id reason' e' s''
             = Fail (Revert (if isAuthorizedIssuer e' s''
                             then "Certificate not valid"
                             else "Not authorized issuer")))
        ∧ (∀ days, extendCertificateValidity id days e' s''
             = Fail (Revert (if isAuthorizedIssuer e' s''
                             then "Certificate not valid"
                             else "Not authorized issuer"))).
Proof.
  intros Hc%reachable_consistent Hauth Hvalid.
  destruct (valid_lookup _ _ _ Hc Hvalid) as (c & Hl & _ & _ & Hid).
  exists (revoke_post id reason s), c.
  split.
  { by rewrite revokeCertificate_run, Hauth, (validCertificate_Done _ _ _ Hvalid). }
  split; [done |].
  split; [post_simpl; by rewrite (mread_Some _ _ _ Hl) |].
  do 10 (split; [reflexivity |]).
  intros s'' e' Hsteps.
  assert (id < nextCertificateId (revoke_post id reason s)
          ∧ Certificate.isValid (mread (certificates (revoke_post id reason s)) id)
            = false) as [Hlt Hv]
    by (post_simpl; rewrite mread_insert_eq; split; [lia | done]).
  destruct (steps_invalid _ _ _ Hsteps Hlt Hv) as [Hlt' Hv'].
  assert (validCertificate id e' s'' = Fail (Revert "Certificate not valid")) as Hg
    by (apply validCertificate_invalid; [lia | done]).
  destruct (guarded_calls_fail _ _ _ _ Hg) as (H1 & H2 & H3 & H4 & H5).
  split; [done |]. split; [done |]. split; [done |].
  split.
  - intros reason'. rewrite H4. by destruct (isAuthorizedIssuer e' s'').
  - intros days. rewrite H5. by destruct (isAuthorizedIssuer e' s'').
Qed.

Lemma stepsAfter_steps t s s' : stepsAfter t s s' → steps s s'.
Proof. induction 1; [apply steps_refl | by apply steps_transact]. Qed.

Lemma expired_effect e s1 s2 id c :
  consistent s1 → effect e s1 s2 →
  certificates s1 !! id = Some c →
  Certificate.expiryDate c ≤ timestamp e →
  certificates s2 !! id = Some c.
Proof.
  intros Hc Heff Hl Hexp.
  assert (id < nextCertificateId s1) as Hid
    by (apply (certificates_dom s1 Hc); eauto).
  destruct Heff as [ | | | p sc lv ev Hb | id0 iss Hpend Hts Hb
                    | id0 reason Hval | id0 days Hval ]; post_simpl; try done.
  - rewrite lookup_insert_ne by lia. done.
  - destruct (decide (id0 = id)) as [-> | Hne]; [| by rewrite lookup_insert_ne].
    apply isValidUnexpired_true in Hval as (_ & _ & Hlt).
    rewrite (mread_Some _ _ _ Hl) in Hlt. lia.
  - destruct (decide (id0 = id)) as [-> | Hne]; [| by rewrite lookup_insert_ne].
    apply isValidUnexpired_true in Hval as (_ & _ & Hlt).
    rewrite (mread_Some _ _ _ Hl) in Hlt. lia.
Qed.

(** X15.  Expiry is final as long as block timestamps do not run
    backwards.  If a stored certificate's expiry date is at or before time
    [t], then after any sequence of transactions in blocks with timestamp
    at least [t] the certificate is stored unchanged (it was neither
    extended nor revoked), and at any such later time
    [verifyCertificate], the handle getters, [revokeCertificate] and
    [extendCertificateValidity] all fail on it. *)
Theorem expired_certificate_is_frozen s s' t id c e :
  reachable s →
  certificates s !! id = Some c →
  Certificate.expiryDate c ≤ t →
  stepsAfter t s s' →
  t ≤ timestamp e →
  certificates s' !! id = Some c
  ∧ (∃ reason, verifyCertificate id e s' = Fail (Revert reason))
  ∧ (∃ reason, getEncryptedScore id e s' = Fail (Revert reason))
  ∧ (∃ reason, getEncryptedLevel id e s' = Fail (Revert reason))
  ∧ (∀ r, ∃ reason, revokeCertificate id r e s' = Fail (Revert reason))
  ∧ (∀ days, ∃ reason, extendCertificateValidity id days e s' = Fail (Revert reason)).
Proof.
  intros Hs Hl Hexp Hafter He.
  assert (reachable s' ∧ certificates s' !! id = Some c) as [Hs' Hl'].
  { induction Hafter as [| s' e0 c0 Hafter [IHs IHl] Ht]; [done |].
    split; [by apply reachable_transact |].
    apply (expired_effect e0 s'); [by apply reachable_consistent | | done | lia].
    apply transact_effect. }
  split; [done |].
  pose proof (reachable_consistent s' Hs') as Hc'.
  assert (1 ≤ id < nextCertificateId s') as Hid
    by (apply (certificates_dom s' Hc'); eauto).
  assert (∃ reason, validCertificate id e s' = Fail (Revert reason)) as [reason Hg].
  { destruct (Certificate.isValid c) eqn:Hv.
    - eexists. apply validCertificate_expired; rewrite ?(mread_Some _ _ _ Hl'); [lia | done | lia].
    - eexists. apply validCertificate_invalid; rewrite ?(mread_Some _ _ _ Hl'); [lia | done]. }
  destruct (guarded_calls_fail _ _ _ _ Hg) as (H1 & H2 & H3 & H4 & H5).
  split; [eauto |]. split; [eauto |]. split; [eauto |].
  split.
  - intros r. rewrite H4. destruct (isAuthorizedIssuer e s'); eauto.
  - intros days. rewrite H5. destruct (isAuthorizedIssuer e s'); eauto.
Qed.

(** *** From submission to certificate *)

(** X16.  The validity window of a certificate as issued.  When
    [processCertificationRequest] completes at time [t] in a reachable
    state, then in the state that call leaves (before any later
    revocation or extension) [verifyCertificate] on the new id, called at
    a time before [t + 365 days], returns the applicant, the profession,
    [true], [t], [t + 365 days], the issuer name and the credential hash;
    called at [t + 365 days] or later it reverts with
    "Certificate expired". *)
Theorem fresh_certificate_validity_window s e id iss s' e' :
  reachable s →
  processCertificationRequest id iss e s = Done tt s' →
  let r := mread (certificationRequests s) id in
  verifyCertificate (nextCertificateId s) e' s'
  = if timestamp e' <? timestamp e + ONE_YEAR
    then Done (CertificationRequest.applicant r, CertificationRequest.profession r, true,
               timestamp e, timestamp e + ONE_YEAR, iss,
               keccak256_packed (CertificationRequest.applicant r)
                 (CertificationRequest.profession r) (timestamp e)
                 (nextCertificateId s)) s'
    else Fail (Revert "Certificate expired").
Proof.
  intros Hc%reachable_consistent (_ & _ & _ & _ & ->)%processCertificationRequest_Done r.
  pose proof (countsFromOne_pos _ _ (certificateIds_log s Hc)) as Hpos.
  rewrite verifyCertificate_run, validCertificate_run. unfold inCertificateRange.
  post_simpl. rewrite !mread_insert_eq.
  cbn [Certificate.isValid Certificate.expiryDate Certificate.holder
       Certificate.profession Certificate.issueDate Certificate.issuer
       Certificate.hashedCredentials].
  replace ((0 <? nextCertificateId s) && (nextCertificateId s <=? nextCertificateId s + 1))
    with true
    by (symmetry; apply andb_true_intro; split;
        [apply N.ltb_lt | apply N.leb_le]; lia).
  by destruct (timestamp e' <? timestamp e + ONE_YEAR).
Qed.

(** X17.  What the applicant submitted is what the holder gets back.  If
    a submission completes in a reachable state and, after any number of
    other transactions, the request it created is processed at time [t],
    then in the state the processing leaves (before any later revocation)
    the applicant is the holder of the new certificate, the certificate
    id is in the applicant's list, and [getEncryptedScore] and
    [getEncryptedLevel], called by the applicant at a time before
    [t + 365 days], return the handles that [FHE.asEuint64] and
    [FHE.asEuint8] produced for the submitted score and level. *)
Theorem submitted_handles_reach_the_holder s e p sc lv ev s1 s2 e2 iss s3 e3 :
  reachable s →
  requestCertification p sc lv ev e s = Done tt s1 →
  steps s1 s2 →
  processCertificationRequest (nextRequestId s) iss e2 s2 = Done tt s3 →
  sender e3 = sender e →
  timestamp e3 < timestamp e2 + ONE_YEAR →
  getEncryptedScore (nextCertificateId s2) e3 s3 = Done (FHE_asEuint64 sc) s3
  ∧ getEncryptedLevel (nextCertificateId s2) e3 s3 = Done (FHE_asEuint8 lv) s3
  ∧ nextCertificateId s2 ∈ mread (holderCertificates s3) (sender e)
  ∧ ∃ c, certificates s3 !! nextCertificateId s2 = Some c
         ∧ Certificate.holder c = sender e
         ∧ Certificate.profession c = p.
Proof.
  intros Hs Hreq Hsteps Hproc Hwho Htime.
  assert (reachable s1) as Hs1.
  { pose proof (requestCertification_Done _ _ _ _ _ _ _ Hreq) as (Hin & _ & _).
    rewrite <- (commit_abi_decode_Done _ _ e s tt s1 (validInput_fits _ _ _ _ Hin) Hreq).
    exact (reachable_transact s e (RequestCertification p sc lv ev) Hs). }
  apply requestCertification_Done in Hreq as (_ & _ & ->).
  assert (certificationRequests (request_post p sc lv ev e s) !! nextRequestId s
          = Some (newRequest p sc lv ev e)) as Hl
    by (post_simpl; by rewrite lookup_insert_eq).
  destruct (steps_request_record _ _ _ _ Hs1 Hsteps Hl)
    as (r & Hr & (Ha & Hp & Hsc & Hlv & _) & _).
  cbn in Ha, Hp, Hsc, Hlv.
  pose proof (reachable_consistent s2 (steps_reachable _ _ Hs1 Hsteps)) as Hc2.
  pose proof (countsFromOne_pos _ _ (certificateIds_log s2 Hc2)) as Hpos.
  apply processCertificationRequest_Done in Hproc as (_ & _ & _ & _ & ->).
  assert ((0 <? nextCertificateId s2) && (nextCertificateId s2 <=? nextCertificateId s2 + 1)
          = true) as Hrange
    by (apply andb_true_intro; split; [apply N.ltb_lt | apply N.leb_le]; lia).
  rewrite getEncryptedScore_run, getEncryptedLevel_run, validCertificate_run.
  unfold inCertificateRange, mayReadHandles. post_simpl.
  rewrite !mread_insert_eq, !lookup_insert_eq, (mread_Some _ _ _ Hr), Hrange.
  cbn [Certificate.isValid Certificate.expiryDate Certificate.holder
       Certificate.profession Certificate.encryptedScore Certificate.encryptedLevel].
  rewrite (proj2 (N.ltb_lt _ _) Htime), Hwho, Ha, Hsc, Hlv, N.eqb_refl.
  cbn [orb]. rewrite <- Ha at 1. rewrite mread_insert_eq, Ha.
  split; [done |]. split; [done |].
  split; [apply elem_of_app; right; by apply list_elem_of_singleton |].
  eexists. split; [done |]. by split.
Qed.

(** *** Ids that were never handed out *)

(** X18.  Ids under which nothing is stored are refused.  In every
    reachable state, for an authorized caller,
    [processCertificationRequest] reverts with "Invalid request ID"
    exactly when no request is stored under the id.
    [verifyCertificate] on an id with no certificate reverts with
    "Invalid certificate ID", except for the id that will be handed out
    next, which passes the range test of the guard and is refused with
    "Certificate not valid". *)
Theorem unknown_ids_are_refused s e id :
  reachable s →
  (isAuthorizedIssuer e s = true →
   ∀ iss, processCertificationRequest id iss e s = Fail (Revert "Invalid request ID")
          ↔ certificationRequests s !! id = None)
  ∧ (certificates s !! id = None →
     verifyCertificate id e s
     = Fail (Revert (if decide (id = nextCertificateId s)
                     then "Certificate not valid"
                     else "Invalid certificate ID"))).
Proof.
  intros Hc%reachable_consistent.
  pose proof (countsFromOne_pos _ _ (requestIds_log s Hc)) as Hrpos.
  pose proof (countsFromOne_pos _ _ (certificateIds_log s Hc)) as Hcpos.
  split.
  - intros Hauth iss. rewrite processCertificationRequest_run, Hauth.
    rewrite eq_None_not_Some, (requests_dom s Hc).
    destruct ((0 <? id) && (id <? nextRequestId s)) eqn:Hrange.
    + apply andb_true_iff in Hrange as [H1%N.ltb_lt H2%N.ltb_lt].
      split; [| lia]. by repeat case_match.
    + split; [| done]. intros _.
      apply andb_false_iff in Hrange as [H1%N.ltb_ge | H2%N.ltb_ge]; lia.
  - intros Hnone. rewrite verifyCertificate_run, validCertificate_run.
    unfold inCertificateRange. rewrite (mread_None _ _ Hnone).
    assert (¬ (1 ≤ id < nextCertificateId s)) as Hout
      by (rewrite <- (certificates_dom s Hc); by rewrite Hnone; intros [? ?]).
    case_decide as Hnext.
    + subst id.
      replace ((0 <? nextCertificateId s) && (nextCertificateId s <=? nextCertificateId s))
        with true
        by (symmetry; apply andb_true_intro; split;
            [apply N.ltb_lt | apply N.leb_le]; lia).
      reflexivity.
    + replace ((0 <? id) && (id <=? nextCertificateId s)) with false; [done |].
      symmetry. apply andb_false_iff.
      destruct (decide (id = 0)) as [-> | Hz]; [by left |].
      right. apply N.leb_gt. lia.
Qed.

(** *** Extensions add up *)

Lemma extendCertificateValidity_Done id days e s s' :
  extendCertificateValidity id days e s = Done tt s' →
  isAuthorizedIssuer e s = true
  ∧ isValidUnexpired id e s = true
  ∧ Certificate.expiryDate (mread (certificates s) id) + days * ONE_DAY ≤ MAX_UINT256
  ∧ s' = extend_post id days s.
Proof.
  rewrite extendCertificateValidity_run.
  destruct (isAuthorizedIssuer e s); [| done].
  destruct (isValidUnexpired id e s) eqn:Hv.
  - rewrite (validCertificate_Done _ _ _ Hv).
    destruct (days * ONE_DAY <=? MAX_UINT256); [| done].
    destruct (_ + days * ONE_DAY <=? MAX_UINT256) eqn:E; [| done].
    intros [= <-]. apply N.leb_le in E. done.
  - by destruct (validCertificate_Fail _ _ _ Hv) as [reason ->].
Qed.

Lemma extendCertificateValidity_complete id days e s :
  isAuthorizedIssuer e s = true →
  isValidUnexpired id e s = true →
  Certificate.expiryDate (mread (certificates s) id) + days * ONE_DAY ≤ MAX_UINT256 →
  extendCertificateValidity id days e s = Done tt (extend_post id days s).
Proof.
  intros Hauth Hv Hfit.
  rewrite extendCertificateValidity_run, Hauth, (validCertificate_Done _ _ _ Hv).
  replace (days * ONE_DAY <=? MAX_UINT256) with true
    by (symmetry; apply N.leb_le; lia).
  by rewrite (proj2 (N.leb_le _ _) Hfit).
Qed.

(** X19.  Extensions add up.  If [extendCertificateValidity] completes
    with [d1] days and then, on the state it left, completes again on the
    same certificate with [d2] days, the final state is the one a single
    call with [d1 + d2] days would have left, and that single call would
    have completed as well; the final expiry is the original one plus
    [(d1 + d2) * 86400]. *)
Theorem extensions_add_up s e1 e2 id d1 d2 s1 s2 :
  extendCertificateValidity id d1 e1 s = Done tt s1 →
  extendCertificateValidity id d2 e2 s1 = Done tt s2 →
  extendCertificateValidity id (d1 + d2) e1 s = Done tt s2
  ∧ Certificate.expiryDate (mread (certificates s2) id)
    = Certificate.expiryDate (mread (certificates s) id) + (d1 + d2) * 86400.
Proof.
  intros (Hauth & Hv & Hfit1 & ->)%extendCertificateValidity_Done
         (_ & _ & Hfit2 & ->)%extendCertificateValidity_Done.
  assert (Certificate.expiryDate (mread (certificates (extend_post id d1 s)) id)
          = Certificate.expiryDate (mread (certificates s) id) + d1 * ONE_DAY) as Hexp1
    by (post_simpl; by rewrite mread_insert_eq).
  rewrite Hexp1 in Hfit2.
  assert (extend_post id d2 (extend_post id d1 s) = extend_post id (d1 + d2) s) as Heq.
  { post_simpl. rewrite mread_insert_eq, insert_insert_eq.
    cbn [Certificate.expiryDate Certificate.set_expiryDate].
    unfold Certificate.set_expiryDate.
    cbn [Certificate.holder Certificate.profession Certificate.encryptedScore
         Certificate.encryptedLevel Certificate.isValid Certificate.issueDate
         Certificate.issuer Certificate.hashedCredentials].
    by rewrite N.mul_add_distr_r, N.add_assoc. }
  rewrite Heq. split.
  - apply extendCertificateValidity_complete; [done | done | lia].
  - post_simpl. by rewrite mread_insert_eq.
Qed.

(** X20.  Processing never looks at the profession requirements.
    Whatever minimum scores and levels are stored,
    [processCertificationRequest] fails or completes in the same way, and
    when it completes it leaves the same state, the requirement tables
    aside. *)
Theorem processing_ignores_requirements s e id iss (m1 m2 : gmap string N) :
  processCertificationRequest id iss e
    (set_minimumLevelRequirement m2 (set_minimumScoreRequirement m1 s))
  = match processCertificationRequest id iss e s with
    | Done u s' =>
        Done u (set_minimumLevelRequirement m2 (set_minimumScoreRequirement m1 s'))
    | Fail f => Fail f
    end.
Proof.
  rewrite !processCertificationRequest_run.
  unfold isAuthorizedIssuer. st_simpl.
  do 5 (guard_split; [| reflexivity]).
  reflexivity.
Qed.

(** *** Access to the encrypted handles *)

Ltac acl_solve :=
  repeat split; rewrite ?elem_of_union, ?elem_of_singleton; intuition auto.

Lemma reachable_accessGranted s : reachable s → accessGranted s.
Proof.
  intros Hs. pattern s. apply reachable_invariant; [done | |]; clear s Hs.
  - intros e. destruct (deploy_fields e) as (_ & _ & _ & Hcs & Hrs & _).
    split; rewrite ?Hcs, ?Hrs; intros ? ?; by rewrite lookup_empty.
  - intros e s1 s2 Hc Heff [Hcert Hreq].
    destruct Heff as [ | | | p sc lv ev Hb | id0 iss Hpend Hts Hb
                      | id0 reason Hval | id0 days Hval ]; try done.
    + split; post_simpl.
      * intros id c Hl. destruct (Hcert id c Hl). acl_solve.
      * intros id r [[<- <-] | [Hne Hl]]%lookup_insert_Some.
        -- cbn. acl_solve.
        -- destruct (Hreq id r Hl) as (? & ? & ? & ?). acl_solve.
    + destruct (pending_lookup _ _ Hc Hpend) as (r0 & Hr0 & _).
      destruct (Hreq id0 r0 Hr0) as (? & ? & ? & ?).
      split; post_simpl; rewrite (mread_Some _ _ _ Hr0).
      * intros id c [[<- <-] | [Hne Hl]]%lookup_insert_Some.
        -- cbn. acl_solve.
        -- destruct (Hcert id c Hl). acl_solve.
      * intros id r [[<- <-] | [Hne Hl]]%lookup_insert_Some.
        -- cbn. acl_solve.
        -- destruct (Hreq id r Hl) as (? & ? & ? & ?). acl_solve.
    + destruct (valid_lookup _ _ _ Hc Hval) as (c0 & Hl0 & _).
      split; post_simpl; [| done]. rewrite (mread_Some _ _ _ Hl0).
      intros id c [[<- <-] | [Hne Hl]]%lookup_insert_Some; [| by apply (Hcert id)].
      exact (Hcert id0 c0 Hl0).
    + destruct (valid_lookup _ _ _ Hc Hval) as (c0 & Hl0 & _).
      split; post_simpl; [| done]. rewrite (mread_Some _ _ _ Hl0).
      intros id c [[<- <-] | [Hne Hl]]%lookup_insert_Some; [| by apply (Hcert id)].
      exact (Hcert id0 c0 Hl0).
Qed.

(** X21.  The contract asks the FHE library for access on behalf of the
    right accounts.  In every reachable state, for each stored request the
    applicant and the contract itself have been granted both handles of
    the request, and for each stored certificate the holder has been
    granted both handles of the certificate. *)
Theorem handles_are_granted s :
  reachable s →
  (∀ id c, certificates s !! id = Some c →
     (Certificate.encryptedScore c, Certificate.holder c) ∈ acl s
     ∧ (Certificate.encryptedLevel c, Certificate.holder c) ∈ acl s)
  ∧ (∀ id r, certificationRequests s !! id = Some r →
     (CertificationRequest.encryptedScore r, CertificationRequest.applicant r) ∈ acl s
     ∧ (CertificationRequest.encryptedLevel r, CertificationRequest.applicant r) ∈ acl s
     ∧ (CertificationRequest.encryptedScore r, this) ∈ acl s
     ∧ (CertificationRequest.encryptedLevel r, this) ∈ acl s).
Proof. intros Hs. exact (reachable_accessGranted s Hs). Qed.

End Properties.

(** ** The theorems on the concrete run *)

Lemma reachable_deployed : @reachable sampleExternal deployed.
Proof. unfold deployed. apply reachable_deploy. Qed.

Lemma reachable_submitted : @reachable sampleExternal submitted.
Proof. unfold submitted, deployed. apply reachable_transact, reachable_deploy. Qed.

Lemma reachable_certified : @reachable sampleExternal certified.
Proof. unfold certified. apply reachable_transact, reachable_submitted. Qed.

(** The owner pauses after the certificate was issued. *)
Lemma emergencyPause_owner_noop_witness :
  sender (ownerAt 2000) = owner certified
  ∧ emergencyPause (ownerAt 2000) certified = Done tt certified
  ∧ @transact sampleExternal (ownerAt 2000) EmergencyPause certified = certified.
Proof.
  assert (sender (ownerAt 2000) = owner certified) as Hown by (vm_compute; reflexivity).
  split; [exact Hown |].
  exact (@emergencyPause_owner_noop sampleExternal (ownerAt 2000) certified Hown).
Defined.

(** The applicant, who is neither owner nor issuer, tries every guarded
    operation. *)
Lemma unauthorized_calls_fail_witness :
  sender (applicantAt 2000) ≠ owner certified
  ∧ mread (authorizedIssuers certified) (sender (applicantAt 2000)) = false
  ∧ authorizeIssuer 8 "Self" (applicantAt 2000) certified = Fail (Revert "Not authorized")
  ∧ revokeCertificate 1 "mine" (applicantAt 2000) certified
    = Fail (Revert "Not authorized issuer").
Proof.
  assert (sender (applicantAt 2000) ≠ owner certified) as Hown
    by (vm_compute; discriminate).
  assert (mread (authorizedIssuers certified) (sender (applicantAt 2000)) = false)
    as Hflag by (vm_compute; reflexivity).
  destruct (@unauthorized_calls_fail sampleExternal (applicantAt 2000) certified)
    as [Howner Hissuer].
  destruct (Howner Hown) as (Hauth & _ & _).
  destruct (Hissuer Hown Hflag) as (_ & Hrev & _).
  split; [exact Hown |]. split; [exact Hflag |].
  split; [exact (proj1 (Hauth 8 "Self")) | exact (proj1 (Hrev 1 "mine"))].
Defined.

(** The request of the run is processed, another request comes in, and the
    owner tries to process the first one again. *)
Lemma request_processed_at_most_once_witness :
  let later := @transact sampleExternal (applicantAt 1500)
                 (RequestCertification "Data Scientist" 90 5 "thesis") certified in
  @processCertificationRequest sampleExternal 1 "Acme Certifiers" (ownerAt 1002) submitted
    = Done tt certified
  ∧ @steps sampleExternal certified later
  ∧ @processCertificationRequest sampleExternal 1 "Acme again" (ownerAt 1600) later
    = Fail (Revert "Request already processed").
Proof.
  intros later.
  assert (@processCertificationRequest sampleExternal 1 "Acme Certifiers"
            (ownerAt 1002) submitted = Done tt certified) as Hfirst
    by (vm_compute; reflexivity).
  assert (@steps sampleExternal certified later) as Hsteps
    by (apply steps_transact, steps_refl).
  assert (isAuthorizedIssuer (ownerAt 1600) later = true) as Hauth
    by (vm_compute; reflexivity).
  split; [exact Hfirst |]. split; [exact Hsteps |].
  pose proof (proj1 (@request_processed_at_most_once sampleExternal submitted (ownerAt 1002)
                       1 "Acme Certifiers" certified later (ownerAt 1600) "Acme again"
                       Hfirst Hsteps)) as Hsecond.
  rewrite Hauth in Hsecond. exact Hsecond.
Defined.

(** After the revocation the owner tries to extend the certificate, and a
    new request is submitted; the certificate stays invalid. *)
Lemma revocation_is_permanent_witness :
  let later := @transact sampleExternal (applicantAt 1700)
                 (RequestCertification "Data Scientist" 90 5 "thesis")
                 (@transact sampleExternal (ownerAt 1600)
                    (ExtendCertificateValidity 1 30) revoked) in
  1 < nextCertificateId revoked
  ∧ Certificate.isValid (mread (certificates revoked) 1) = false
  ∧ @steps sampleExternal revoked later
  ∧ Certificate.isValid (mread (certificates later) 1) = false.
Proof.
  intros later.
  assert (1 < nextCertificateId revoked) as Hid by (vm_compute; reflexivity).
  assert (Certificate.isValid (mread (certificates revoked) 1) = false) as Hv
    by (vm_compute; reflexivity).
  assert (@steps sampleExternal revoked later) as Hsteps
    by (apply steps_transact, steps_transact, steps_refl).
  split; [exact Hid |]. split; [exact Hv |]. split; [exact Hsteps |].
  exact (@revocation_is_permanent sampleExternal revoked later 1 Hid Hv Hsteps).
Defined.

(** The first submission after deployment receives request id 1, the
    next submission receives request id 2, and the first certificate
    issued receives certificate id 1. *)
Lemma ids_assigned_from_one_witness :
  @reachable sampleExternal deployed
  ∧ @reachable sampleExternal submitted
  ∧ (∃ s', @requestCertification sampleExternal "Software Engineer" 80 4 "portfolio-link"
             (applicantAt 1001) deployed = Done tt s'
           ∧ certificationRequests deployed !! 1 = None
           ∧ certificationRequests s' !! 1
             = Some (@newRequest sampleExternal "Software Engineer" 80 4 "portfolio-link"
                       (applicantAt 1001))
           ∧ requestIdsAssigned s' = [1])
  ∧ (∃ s', @requestCertification sampleExternal "Data Scientist" 90 5 "thesis"
             (applicantAt 1500) submitted = Done tt s'
           ∧ certificationRequests submitted !! 2 = None
           ∧ certificationRequests s' !! 2
             = Some (@newRequest sampleExternal "Data Scientist" 90 5 "thesis"
                       (applicantAt 1500))
           ∧ requestIdsAssigned s' = [1; 2])
  ∧ (∃ s' c, @processCertificationRequest sampleExternal 1 "Acme Certifiers"
               (ownerAt 1002) submitted = Done tt s'
             ∧ certificates submitted !! 1 = None
             ∧ certificates s' !! 1 = Some c
             ∧ certificateIdsAssigned s' = [1]).
Proof.
  assert (requestIdsAssigned deployed = []) as Hd0 by (vm_compute; reflexivity).
  assert (requestIdsAssigned submitted = [1]) as Hd1 by (vm_compute; reflexivity).
  assert (certificateIdsAssigned submitted = []) as Hc1 by (vm_compute; reflexivity).
  assert (sender (ownerAt 1002) = owner submitted) as Hown by (vm_compute; reflexivity).
  assert (1 ≤ 1 < nextRequestId submitted) as Hid
    by (split; vm_compute; [discriminate | reflexivity]).
  assert (CertificationRequest.isProcessed (mread (certificationRequests submitted) 1)
          = false) as Hp by (vm_compute; reflexivity).
  assert (timestamp (ownerAt 1002) < 2 ^ 64) as Hts by (vm_compute; reflexivity).
  pose proof (@ids_assigned_from_one sampleExternal deployed reachable_deployed) as H0.
  pose proof (@ids_assigned_from_one sampleExternal submitted reachable_submitted) as H1.
  cbv zeta in H0, H1.
  destruct H0 as (_ & _ & _ & _ & _ & Hsub0 & _).
  destruct H1 as (_ & _ & _ & _ & _ & Hsub1 & Hproc1).
  rewrite Hd0 in Hsub0. rewrite Hd1 in Hsub1. rewrite Hc1 in Hproc1.
  split; [exact reachable_deployed |]. split; [exact reachable_submitted |].
  split; [| split].
  - destruct (Hsub0 (applicantAt 1001) "Software Engineer" 80 4 "portfolio-link")
      as (s' & Hrun & _ & Hfree & Hstored & _ & Hlog).
    { vm_compute; discriminate. } { vm_compute; discriminate. }
    { vm_compute; lia. } { vm_compute; lia. } { vm_compute; reflexivity. }
    exists s'. split; [exact Hrun |]. split; [exact Hfree |].
    split; [exact Hstored | exact Hlog].
  - destruct (Hsub1 (applicantAt 1500) "Data Scientist" 90 5 "thesis")
      as (s' & Hrun & _ & Hfree & Hstored & _ & Hlog).
    { vm_compute; discriminate. } { vm_compute; discriminate. }
    { vm_compute; lia. } { vm_compute; lia. } { vm_compute; reflexivity. }
    exists s'. split; [exact Hrun |]. split; [exact Hfree |].
    split; [exact Hstored | exact Hlog].
  - destruct (Hproc1 (ownerAt 1002) 1 "Acme Certifiers" (or_intror Hown) Hid Hp Hts)
      as (s' & c & Hrun & _ & Hfree & Hstored & _ & _ & Hlog).
    exists s', c. split; [exact Hrun |]. split; [exact Hfree |].
    split; [exact Hstored | exact Hlog].
Defined.

(** A stranger verifies the certificate of the run. *)
Lemma verifyCertificate_spec_witness :
  @reachable sampleExternal certified
  ∧ Certificate.isValid (mread (certificates certified) 1) = true
  ∧ timestamp (strangerAt 2000) < Certificate.expiryDate (mread (certificates certified) 1)
  ∧ verifyCertificate 1 (strangerAt 2000) certified
    = Done (8, "Software Engineer", true, 1002, 31537002, "Acme Certifiers", 1011)
        certified.
Proof.
  assert (Certificate.isValid (mread (certificates certified) 1) = true) as Hv
    by (vm_compute; reflexivity).
  assert (timestamp (strangerAt 2000)
          < Certificate.expiryDate (mread (certificates certified) 1)) as Hexp
    by (vm_compute; reflexivity).
  assert (mread (certificates certified) 1
          = Certificate.mk 8 "Software Engineer" 1080 2004 true 1002 31537002
              "Acme Certifiers" 1011) as Hcert
    by (vm_compute; reflexivity).
  split; [exact reachable_certified |]. split; [exact Hv |]. split; [exact Hexp |].
  destruct (@verifyCertificate_spec sampleExternal certified (strangerAt 2000) 1
              reachable_certified) as (_ & _ & _ & Hok).
  specialize (Hok Hv Hexp). rewrite Hcert in Hok. exact Hok.
Defined.

(** The holder reads the two handles of the certificate of the run. *)
Lemma encrypted_handles_access_witness :
  @reachable sampleExternal certified
  ∧ getEncryptedScore 1 (applicantAt 2000) certified = Done 1080 certified
  ∧ getEncryptedLevel 1 (applicantAt 2000) certified = Done 2004 certified.
Proof.
  assert (mread (certificates certified) 1
          = Certificate.mk 8 "Software Engineer" 1080 2004 true 1002 31537002
              "Acme Certifiers" 1011) as Hcert
    by (vm_compute; reflexivity).
  split; [exact reachable_certified |].
  destruct (@encrypted_handles_access sampleExternal certified (applicantAt 2000) 1
              reachable_certified) as [Hok _].
  rewrite Hcert in Hok. apply Hok.
  split; [reflexivity |]. split; [vm_compute; reflexivity | left; reflexivity].
Defined.

(** The owner processes the request of the run. *)
Lemma processCertificationRequest_approves_witness :
  @reachable sampleExternal submitted
  ∧ sender (ownerAt 1002) = owner submitted
  ∧ 1 ≤ 1 < nextRequestId submitted
  ∧ CertificationRequest.isProcessed (mread (certificationRequests submitted) 1) = false
  ∧ timestamp (ownerAt 1002) < 2 ^ 64
  ∧ ∃ s', @processCertificationRequest sampleExternal 1 "Acme Certifiers"
            (ownerAt 1002) submitted = Done tt s'
          ∧ CertificationRequest.isProcessed (mread (certificationRequests s') 1) = true
          ∧ CertificationRequest.isApproved (mread (certificationRequests s') 1) = true
          ∧ nextCertificateId s' = nextCertificateId submitted + 1.
Proof.
  assert (sender (ownerAt 1002) = owner submitted) as Hown by (vm_compute; reflexivity).
  assert (1 ≤ 1 < nextRequestId submitted) as Hid
    by (split; vm_compute; [discriminate | reflexivity]).
  assert (CertificationRequest.isProcessed (mread (certificationRequests submitted) 1)
          = false) as Hp by (vm_compute; reflexivity).
  assert (timestamp (ownerAt 1002) < 2 ^ 64) as Hts by (vm_compute; reflexivity).
  split; [exact reachable_submitted |]. split; [exact Hown |]. split; [exact Hid |].
  split; [exact Hp |]. split; [exact Hts |].
  destruct (@processCertificationRequest_approves sampleExternal submitted (ownerAt 1002)
              1 "Acme Certifiers" reachable_submitted (or_intror Hown) Hid Hp Hts)
    as (s' & Hrun & Hproc & Happ & _ & _ & _ & Hnext & _).
  exists s'. split; [exact Hrun |]. split; [exact Hproc |].
  split; [exact Happ | exact Hnext].
Defined.

(** The submission of the run, and the same submission with a score of 150. *)
Lemma requestCertification_succeeds_iff_witness :
  @reachable sampleExternal deployed
  ∧ N.of_nat (length (requestIdsAssigned deployed)) < MAX_UINT256 - 1
  ∧ succeeds (@requestCertification sampleExternal "Software Engineer" 80 4 "portfolio-link")
      (applicantAt 1001) deployed = true
  ∧ (∃ reason, @requestCertification sampleExternal "Software Engineer" 150 4
                 "portfolio-link" (applicantAt 1001) deployed = Fail (Revert reason))
  ∧ @transact sampleExternal (applicantAt 1001)
      (RequestCertification "Software Engineer" 150 4 "portfolio-link") deployed = deployed.
Proof.
  assert (N.of_nat (length (requestIdsAssigned deployed)) < MAX_UINT256 - 1) as Hroom
    by (vm_compute; reflexivity).
  destruct (@requestCertification_succeeds_iff sampleExternal deployed (applicantAt 1001)
              "Software Engineer" 80 4 "portfolio-link" reachable_deployed Hroom)
    as (Hiff & _).
  destruct (@requestCertification_succeeds_iff sampleExternal deployed (applicantAt 1001)
              "Software Engineer" 150 4 "portfolio-link" reachable_deployed Hroom)
    as (_ & _ & Hbad).
  split; [exact reachable_deployed |]. split; [exact Hroom |].
  split.
  - apply Hiff.
    split; [vm_compute; discriminate |]. split; [vm_compute; discriminate |].
    split; vm_compute; lia.
  - destruct Hbad as (Hrev & Hsame).
    { intros [Hsc _]. vm_compute in Hsc. apply Hsc. reflexivity. }
    split; [exact Hrev |]. cbv zeta in Hsame. exact (proj1 Hsame).
Defined.

(** The owner extends the certificate of the run by thirty days. *)
Lemma extendCertificateValidity_expiry_witness :
  isAuthorizedIssuer (ownerAt 2000) certified = true
  ∧ isValidUnexpired 1 (ownerAt 2000) certified = true
  ∧ 31537002 + 30 * 86400 ≤ MAX_UINT256
  ∧ ∃ s', extendCertificateValidity 1 30 (ownerAt 2000) certified = Done tt s'
          ∧ Certificate.expiryDate (mread (certificates s') 1) = 31537002 + 30 * 86400.
Proof.
  assert (isAuthorizedIssuer (ownerAt 2000) certified = true) as Hauth
    by (vm_compute; reflexivity).
  assert (isValidUnexpired 1 (ownerAt 2000) certified = true) as Hvalid
    by (vm_compute; reflexivity).
  assert (Certificate.expiryDate (mread (certificates certified) 1) = 31537002) as Hold
    by (vm_compute; reflexivity).
  assert (31537002 + 30 * 86400 ≤ MAX_UINT256) as Hfit by (vm_compute; discriminate).
  split; [exact Hauth |]. split; [exact Hvalid |]. split; [exact Hfit |].
  destruct (@extendCertificateValidity_expiry sampleExternal certified (ownerAt 2000))
    as [Hext _].
  destruct (Hext 1 30 Hauth Hvalid) as [Hok _].
  rewrite Hold in Hok. exact (Hok Hfit).
Defined.

(** The owner asks for [2^256 - 1] more days on the valid, unexpired
    certificate of the run: the product overflows, the call aborts, and the
    expiry is not the old expiry plus [additionalDays * 86400]. *)
Lemma extendCertificateValidity_overflow_counterexample :
  isAuthorizedIssuer (ownerAt 2000) certified = true
  ∧ isValidUnexpired 1 (ownerAt 2000) certified = true
  ∧ extendCertificateValidity 1 MAX_UINT256 (ownerAt 2000) certified = Fail (Panic 17)
  ∧ Certificate.expiryDate
      (mread (certificates
                (@transact sampleExternal (ownerAt 2000)
                   (ExtendCertificateValidity 1 MAX_UINT256) certified)) 1)
    ≠ Certificate.expiryDate (mread (certificates certified) 1) + MAX_UINT256 * 86400.
Proof.
  split; [vm_compute; reflexivity |].
  split; [vm_compute; reflexivity |].
  split; [vm_compute; reflexivity |].
  vm_compute. discriminate.
Qed.

(** ** The further properties on the concrete run *)

Lemma steps_deployed_certified : @steps sampleExternal deployed certified.
Proof. unfold certified, submitted. apply steps_transact, steps_transact, steps_refl. Qed.

Lemma steps_certified_revoked : @steps sampleExternal certified revoked.
Proof. unfold revoked. apply steps_transact, steps_refl. Qed.

Lemma certified_certificate :
  certificates certified !! 1
  = Some (Certificate.mk 8 "Software Engineer" 1080 2004 true 1002 31537002
            "Acme Certifiers" 1011).
Proof. vm_compute. reflexivity. Qed.

Lemma submitted_request :
  certificationRequests submitted !! 1
  = Some (CertificationRequest.mk 8 "Software Engineer" 1080 2004 false false 1001
            "portfolio-link").
Proof. vm_compute. reflexivity. Qed.

Lemma owner_is_the_deployer_witness :
  @steps sampleExternal (deploy (ownerAt 1000)) certified
  ∧ owner certified = sender (ownerAt 1000).
Proof.
  split; [exact steps_deployed_certified |].
  exact (@owner_is_the_deployer sampleExternal (ownerAt 1000) certified
           steps_deployed_certified).
Defined.

Lemma authorizeIssuer_grants_witness :
  sender (ownerAt 2000) = owner certified
  ∧ ∃ s', authorizeIssuer 11 "Board" (ownerAt 2000) certified = Done tt s'
          ∧ mread (authorizedIssuers s') 11 = true.
Proof.
  assert (sender (ownerAt 2000) = owner certified) as Hown by (vm_compute; reflexivity).
  split; [exact Hown |].
  destruct (authorizeIssuer_grants (ownerAt 2000) certified 11 "Board" Hown)
    as (s' & Hrun & Hflag & _).
  exists s'. split; [exact Hrun | exact Hflag].
Defined.

Lemma revokeIssuer_withdraws_witness :
  sender (ownerAt 2000) = owner certified
  ∧ ∃ s', revokeIssuer 11 (ownerAt 2000) certified = Done tt s'
          ∧ mread (authorizedIssuers s') 11 = false.
Proof.
  assert (sender (ownerAt 2000) = owner certified) as Hown by (vm_compute; reflexivity).
  split; [exact Hown |].
  destruct (revokeIssuer_withdraws (ownerAt 2000) certified 11 Hown)
    as (s' & Hrun & Hflag & _).
  exists s'. split; [exact Hrun | exact Hflag].
Defined.

(** The owner raises the requirements for data scientists, and then tries
    a level of 256. *)
Lemma setProfessionRequirements_then_get_witness :
  sender (ownerAt 2000) = owner certified
  ∧ (∃ s', @transact sampleExternal (ownerAt 2000)
             (SetProfessionRequirements "Data Scientist" 90 5) certified = s'
           ∧ getProfessionRequirements "Data Scientist" (strangerAt 2001) s'
             = Done (90, 5) s')
  ∧ @dispatch sampleExternal (SetProfessionRequirements "Data Scientist" 90 256)
      (ownerAt 2000) certified = Fail (Revert EmptyString)
  ∧ @transact sampleExternal (ownerAt 2000)
      (SetProfessionRequirements "Data Scientist" 90 256) certified = certified.
Proof.
  assert (sender (ownerAt 2000) = owner certified) as Hown by (vm_compute; reflexivity).
  split; [exact Hown |].
  destruct (@setProfessionRequirements_then_get sampleExternal (ownerAt 2000) certified
              "Data Scientist" 90 5) as (Hset & _ & _).
  destruct (@setProfessionRequirements_then_get sampleExternal (ownerAt 2000) certified
              "Data Scientist" 90 256) as (_ & Hwide & _).
  split.
  - destruct (Hset Hown) as (s' & _ & _ & Htx & Hget & _).
    { vm_compute; reflexivity. } { vm_compute; reflexivity. }
    exists s'. split; [exact Htx | exact (Hget (strangerAt 2001))].
  - apply Hwide. right. vm_compute. discriminate.
Defined.

Lemma counts_match_storage_witness :
  @reachable sampleExternal certified
  ∧ getCertificateCount (strangerAt 2000) certified
    = Done (N.of_nat (size (certificates certified))) certified.
Proof.
  split; [exact reachable_certified |].
  exact (proj1 (@counts_match_storage sampleExternal certified (strangerAt 2000)
                  reachable_certified)).
Defined.

Lemma getHolderCertificates_lists_holdings_witness :
  @reachable sampleExternal certified
  ∧ ∃ l, getHolderCertificates 8 (strangerAt 2000) certified = Done l certified
         ∧ NoDup l.
Proof.
  split; [exact reachable_certified |].
  destruct (@getHolderCertificates_lists_holdings sampleExternal certified
              (strangerAt 2000) 8 reachable_certified) as (l & Hrun & _ & _ & Hnd).
  exists l. split; [exact Hrun | exact Hnd].
Defined.

Lemma certificate_identity_is_permanent_witness :
  @reachable sampleExternal certified
  ∧ @steps sampleExternal certified revoked
  ∧ ∃ c', certificates revoked !! 1 = Some c'
          ∧ sameIdentity
              (Certificate.mk 8 "Software Engineer" 1080 2004 true 1002 31537002
                 "Acme Certifiers" 1011) c'.
Proof.
  split; [exact reachable_certified |]. split; [exact steps_certified_revoked |].
  destruct (@certificate_identity_is_permanent sampleExternal certified revoked 1 _
              reachable_certified steps_certified_revoked certified_certificate)
    as (c' & Hl & Hsame & _).
  exists c'. split; [exact Hl | exact Hsame].
Defined.

Lemma request_record_is_permanent_witness :
  @reachable sampleExternal submitted
  ∧ @steps sampleExternal submitted certified
  ∧ ∃ r', certificationRequests certified !! 1 = Some r'
          ∧ sameSubmission
              (CertificationRequest.mk 8 "Software Engineer" 1080 2004 false false 1001
                 "portfolio-link") r'.
Proof.
  assert (@steps sampleExternal submitted certified) as Hsteps
    by (unfold certified; apply steps_transact, steps_refl).
  split; [exact reachable_submitted |]. split; [exact Hsteps |].
  destruct (@request_record_is_permanent sampleExternal submitted certified 1 _
              reachable_submitted Hsteps submitted_request) as (r' & Hl & Hsame & _).
  exists r'. split; [exact Hl | exact Hsame].
Defined.

Lemma rejection_never_happens_witness :
  @reachable sampleExternal certified
  ∧ ∀ id reason, CertificationRejected id reason ∉ events certified.
Proof.
  split; [exact reachable_certified |].
  exact (proj2 (@rejection_never_happens sampleExternal certified reachable_certified)).
Defined.

Lemma holder_list_only_grows_witness :
  @steps sampleExternal deployed certified
  ∧ ∃ l l', getHolderCertificates 8 (strangerAt 1000) deployed = Done l deployed
            ∧ getHolderCertificates 8 (strangerAt 2000) certified = Done l' certified
            ∧ l `prefix_of` l'.
Proof.
  split; [exact steps_deployed_certified |].
  exact (@holder_list_only_grows sampleExternal deployed certified 8
           (strangerAt 1000) (strangerAt 2000) steps_deployed_certified).
Defined.

Lemma certificates_are_well_issued_witness :
  @reachable sampleExternal certified
  ∧ certificates certified !! 1
    = Some (Certificate.mk 8 "Software Engineer" 1080 2004 true 1002 31537002
              "Acme Certifiers" 1011)
  ∧ 1002 + 365 * 86400 ≤ 31537002.
Proof.
  split; [exact reachable_certified |]. split; [exact certified_certificate |].
  exact (proj1 (@certificates_are_well_issued sampleExternal certified 1 _
                  reachable_certified certified_certificate)).
Defined.

Lemma certificates_come_from_requests_witness :
  @reachable sampleExternal certified
  ∧ ∃ rid r, certificationRequests certified !! rid = Some r
             ∧ issuedFor r
                 (Certificate.mk 8 "Software Engineer" 1080 2004 true 1002 31537002
                    "Acme Certifiers" 1011).
Proof.
  split; [exact reachable_certified |].
  exact (proj1 (@certificates_come_from_requests sampleExternal certified
                  reachable_certified) 1 _ certified_certificate).
Defined.

Lemma revoked_certificate_is_unusable_witness :
  @reachable sampleExternal certified
  ∧ isAuthorizedIssuer (ownerAt 1003) certified = true
  ∧ isValidUnexpired 1 (ownerAt 1003) certified = true
  ∧ ∃ s', revokeCertificate 1 "withdrawn" (ownerAt 1003) certified = Done tt s'
          ∧ certificationRequests s' = certificationRequests certified
          ∧ verifyCertificate 1 (strangerAt 1004) s'
            = Fail (Revert "Certificate not valid").
Proof.
  assert (isAuthorizedIssuer (ownerAt 1003) certified = true) as Hauth
    by (vm_compute; reflexivity).
  assert (isValidUnexpired 1 (ownerAt 1003) certified = true) as Hvalid
    by (vm_compute; reflexivity).
  split; [exact reachable_certified |]. split; [exact Hauth |]. split; [exact Hvalid |].
  destruct (@revoked_certificate_is_unusable sampleExternal certified (ownerAt 1003) 1
              "withdrawn" reachable_certified Hauth Hvalid)
    as (s' & c & Hrun & _ & _ & _ & _ & Hreqs & _ & _ & _ & _ & _ & _ & _ & Hlater).
  exists s'. split; [exact Hrun |]. split; [exact Hreqs |].
  exact (proj1 (Hlater s' (strangerAt 1004) (steps_refl s'))).
Defined.

Lemma expired_certificate_is_frozen_witness :
  let later := @transact sampleExternal (ownerAt 40000001)
                 (ExtendCertificateValidity 1 30) certified in
  @reachable sampleExternal certified
  ∧ 31537002 ≤ 40000000
  ∧ @stepsAfter sampleExternal 40000000 certified later
  ∧ 40000000 ≤ timestamp (strangerAt 40000002)
  ∧ certificates later !! 1
    = Some (Certificate.mk 8 "Software Engineer" 1080 2004 true 1002 31537002
              "Acme Certifiers" 1011).
Proof.
  intros later.
  assert (31537002 ≤ 40000000) as Hexp by (vm_compute; discriminate).
  assert (@stepsAfter sampleExternal 40000000 certified later) as Hafter.
  { apply stepsAfter_transact; [apply stepsAfter_refl | vm_compute; discriminate]. }
  assert (40000000 ≤ timestamp (strangerAt 40000002)) as He
    by (vm_compute; discriminate).
  split; [exact reachable_certified |]. split; [exact Hexp |].
  split; [exact Hafter |]. split; [exact He |].
  exact (proj1 (@expired_certificate_is_frozen sampleExternal certified later 40000000 1 _
                  (strangerAt 40000002) reachable_certified certified_certificate
                  Hexp Hafter He)).
Defined.

Lemma process_submitted :
  @processCertificationRequest sampleExternal 1 "Acme Certifiers" (ownerAt 1002) submitted
  = Done tt certified.
Proof. vm_compute. reflexivity. Qed.

Lemma fresh_certificate_validity_window_witness :
  @reachable sampleExternal submitted
  ∧ @processCertificationRequest sampleExternal 1 "Acme Certifiers" (ownerAt 1002)
      submitted = Done tt certified
  ∧ verifyCertificate 1 (strangerAt 31537002) certified
    = Fail (Revert "Certificate expired").
Proof.
  split; [exact reachable_submitted |]. split; [exact process_submitted |].
  pose proof (@fresh_certificate_validity_window sampleExternal submitted (ownerAt 1002) 1
                "Acme Certifiers" certified (strangerAt 31537002)
                reachable_submitted process_submitted) as Hwin.
  cbv zeta in Hwin.
  assert (nextCertificateId submitted = 1) as Hnext by (vm_compute; reflexivity).
  assert ((timestamp (strangerAt 31537002) <? timestamp (ownerAt 1002) + ONE_YEAR) = false)
    as Hlate by (vm_compute; reflexivity).
  rewrite Hnext, Hlate in Hwin. exact Hwin.
Defined.

Lemma submitted_handles_reach_the_holder_witness :
  @reachable sampleExternal deployed
  ∧ @requestCertification sampleExternal "Software Engineer" 80 4 "portfolio-link"
      (applicantAt 1001) deployed = Done tt submitted
  ∧ @steps sampleExternal submitted submitted
  ∧ @processCertificationRequest sampleExternal (nextRequestId deployed)
      "Acme Certifiers" (ownerAt 1002) submitted = Done tt certified
  ∧ sender (applicantAt 2000) = sender (applicantAt 1001)
  ∧ timestamp (applicantAt 2000) < timestamp (ownerAt 1002) + ONE_YEAR
  ∧ getEncryptedScore (nextCertificateId submitted) (applicantAt 2000) certified
    = Done (@FHE_asEuint64 sampleExternal 80) certified.
Proof.
  assert (@reachable sampleExternal deployed) as Hs by apply reachable_deploy.
  assert (@requestCertification sampleExternal "Software Engineer" 80 4 "portfolio-link"
            (applicantAt 1001) deployed = Done tt submitted) as Hreq
    by (vm_compute; reflexivity).
  assert (@processCertificationRequest sampleExternal (nextRequestId deployed)
            "Acme Certifiers" (ownerAt 1002) submitted = Done tt certified) as Hproc
    by (vm_compute; reflexivity).
  assert (timestamp (applicantAt 2000) < timestamp (ownerAt 1002) + ONE_YEAR) as Htime
    by (vm_compute; reflexivity).
  split; [exact Hs |]. split; [exact Hreq |]. split; [apply steps_refl |].
  split; [exact Hproc |]. split; [reflexivity |]. split; [exact Htime |].
  exact (proj1 (@submitted_handles_reach_the_holder sampleExternal deployed
                  (applicantAt 1001) "Software Engineer" 80 4 "portfolio-link"
                  submitted submitted (ownerAt 1002) "Acme Certifiers" certified
                  (applicantAt 2000) Hs Hreq (steps_refl submitted) Hproc eq_refl Htime)).
Defined.

Lemma unknown_ids_are_refused_witness :
  @reachable sampleExternal certified
  ∧ isAuthorizedIssuer (ownerAt 2000) certified = true
  ∧ certificationRequests certified !! 5 = None
  ∧ certificates certified !! 2 = None
  ∧ @processCertificationRequest sampleExternal 5 "Acme Certifiers" (ownerAt 2000) certified
    = Fail (Revert "Invalid request ID")
  ∧ verifyCertificate 2 (ownerAt 2000) certified = Fail (Revert "Certificate not valid").
Proof.
  assert (isAuthorizedIssuer (ownerAt 2000) certified = true) as Hauth
    by (vm_compute; reflexivity).
  assert (certificationRequests certified !! 5 = None) as Hreq
    by (vm_compute; reflexivity).
  assert (certificates certified !! 2 = None) as Hcert by (vm_compute; reflexivity).
  split; [exact reachable_certified |]. split; [exact Hauth |].
  split; [exact Hreq |]. split; [exact Hcert |].
  split.
  - destruct (@unknown_ids_are_refused sampleExternal certified (ownerAt 2000) 5
                reachable_certified) as [Hp _].
    exact (proj2 (Hp Hauth "Acme Certifiers") Hreq).
  - destruct (@unknown_ids_are_refused sampleExternal certified (ownerAt 2000) 2
                reachable_certified) as [_ Hv].
    specialize (Hv Hcert).
    assert (nextCertificateId certified = 2) as Hnext by (vm_compute; reflexivity).
    rewrite Hnext in Hv. exact Hv.
Defined.

Lemma extensions_add_up_witness :
  let once := @transact sampleExternal (ownerAt 2000)
                (ExtendCertificateValidity 1 10) certified in
  let twice := @transact sampleExternal (ownerAt 3000)
                 (ExtendCertificateValidity 1 20) once in
  extendCertificateValidity 1 10 (ownerAt 2000) certified = Done tt once
  ∧ extendCertificateValidity 1 20 (ownerAt 3000) once = Done tt twice
  ∧ extendCertificateValidity 1 (10 + 20) (ownerAt 2000) certified = Done tt twice.
Proof.
  intros once twice.
  assert (extendCertificateValidity 1 10 (ownerAt 2000) certified = Done tt once) as H1
    by (vm_compute; reflexivity).
  assert (extendCertificateValidity 1 20 (ownerAt 3000) once = Done tt twice) as H2
    by (vm_compute; reflexivity).
  split; [exact H1 |]. split; [exact H2 |].
  exact (proj1 (extensions_add_up certified (ownerAt 2000) (ownerAt 3000) 1 10 20
                  once twice H1 H2)).
Defined.

Lemma handles_are_granted_witness :
  @reachable sampleExternal certified
  ∧ (1080, 8) ∈ acl certified ∧ (2004, 8) ∈ acl certified.
Proof.
  split; [exact reachable_certified |].
  exact (proj1 (@handles_are_granted sampleExternal certified reachable_certified)
           1 _ certified_certificate).
Defined.
